(** * Workspace onboarding wizard (src/pages/NoWorkspace.tsx) and the
      workspace provisioner (src/services/workspace.service.ts)

    A shallow embedding of the onboarding flow: the slug derivation
    [toSlug], the phone-placeholder test [looksLikePhone], the bind command,
    the wizard's event handlers as a step function over the component state,
    and the response unwrapping of [createWorkspace].

    JavaScript strings are sequences of UTF-16 code units; they are modelled
    as [list N].  The regular expressions of the source carry no [u] flag, so
    they work on code units too. *)

From Stdlib Require Import NArith List Bool Lia.
From stdpp Require Import base list strings gmap.
Import ListNotations.

(** ** JavaScript strings *)

Module JS.

Definition jsstring := list N.

(** ASCII literals of the source, as code units. *)
Definition lit (s : string) : jsstring :=
  List.map Ascii.N_of_ascii (String.list_ascii_of_string s).

Definition in_range (lo hi c : N) : bool := (lo <=? c)%N && (c <=? hi)%N.

(** WhiteSpace and LineTerminator of ECMAScript: the class [\s] of a
    regular expression, and what [String.prototype.trim] strips. *)
Definition is_whitespace (c : N) : bool :=
  in_range 9 13 c            (* TAB LF VT FF CR *)
  || (c =? 32)%N             (* SPACE *)
  || (c =? 160)%N            (* NO-BREAK SPACE *)
  || (c =? 5760)%N           (* U+1680 *)
  || in_range 8192 8202 c    (* U+2000 .. U+200A *)
  || in_range 8232 8233 c    (* U+2028 U+2029 *)
  || (c =? 8239)%N           (* U+202F *)
  || (c =? 8287)%N           (* U+205F *)
  || (c =? 12288)%N          (* U+3000 *)
  || (c =? 65279)%N.         (* U+FEFF *)

(** [\d] *)
Definition is_digit (c : N) : bool := in_range 48 57 c.

Fixpoint trimStart (s : jsstring) : jsstring :=
  match s with
  | c :: r => if is_whitespace c then trimStart r else s
  | [] => []
  end.

Definition trimEnd (s : jsstring) : jsstring := rev (trimStart (rev s)).

Definition trim (s : jsstring) : jsstring := trimEnd (trimStart s).

(** Truthiness of a string: every string but the empty one. *)
Definition truthy (s : jsstring) : bool :=
  match s with [] => false | _ => true end.

(** [s.replace(/[cls]/g, '')] for a one-character class. *)
Definition delete_class (cls : N -> bool) (s : jsstring) : jsstring :=
  List.filter (fun c => negb (cls c)) s.

(** [s.replace(/[cls]+/g, by)]: every maximal run of the class becomes one
    copy of [by].  [in_run] tells that the previous unit was in the class. *)
Fixpoint replace_runs (cls : N -> bool) (by_ : jsstring) (in_run : bool)
    (s : jsstring) : jsstring :=
  match s with
  | [] => []
  | c :: r =>
      if cls c then
        (if in_run then [] else by_) ++ replace_runs cls by_ true r
      else c :: replace_runs cls by_ false r
  end.

End JS.
Import JS.

(** ** The platform's case conversion and normalization on Latin-1

    [String.prototype.toLowerCase] and [String.prototype.normalize('NFD')]
    belong to the JavaScript runtime.  On strings whose code units are all
    below U+0100 both act unit by unit, by the tables below (Unicode
    character database: simple lowercase mappings and canonical
    decompositions of Basic Latin and Latin-1 Supplement). *)

Module Latin1.

Definition latin1 (c : N) : Prop := (c < 256)%N.

Definition lower1 (c : N) : N :=
  if in_range 65 90 c                             (* A .. Z *)
     || (in_range 192 222 c && negb (c =? 215)%N) (* U+00C0 .. U+00DE but U+00D7 *)
  then (c + 32)%N else c.

(** Canonical decompositions of U+00C0 .. U+00DF: base letter and
    combining mark.  U+00E0 .. U+00FF decompose alike with the lowercase
    base, except U+00DF (none) and U+00FF (y, diaeresis). *)
Definition decomp_upper : list (option (N * N)) :=
  [ Some (65, 768); Some (65, 769); Some (65, 770); Some (65, 771);
    Some (65, 776); Some (65, 778); None;           Some (67, 807);
    Some (69, 768); Some (69, 769); Some (69, 770); Some (69, 776);
    Some (73, 768); Some (73, 769); Some (73, 770); Some (73, 776);
    None;           Some (78, 771); Some (79, 768); Some (79, 769);
    Some (79, 770); Some (79, 771); Some (79, 776); None;
    None;           Some (85, 768); Some (85, 769); Some (85, 770);
    Some (85, 776); Some (89, 769); None;           None ]%N.

Definition decomp1 (c : N) : option (N * N) :=
  if in_range 192 223 c then
    mjoin (nth_error decomp_upper (N.to_nat (c - 192)))
  else if (c =? 255)%N then Some (121, 776)%N
  else if in_range 224 254 c then
    (fun bm => (fst bm + 32, snd bm)%N)
      <$> mjoin (nth_error decomp_upper (N.to_nat (c - 224)))
  else None.

Definition nfd1 (c : N) : jsstring :=
  match decomp1 c with
  | Some (b, m) => [b; m]
  | None => [c]
  end.

Definition toLowerCase (s : jsstring) : jsstring := List.map lower1 s.
Definition normalizeNFD (s : jsstring) : jsstring := List.flat_map nfd1 s.

End Latin1.

(** ** Regular expressions on code units

    Enough of the regular-expression language for the patterns of the page.
    A pattern anchored by [^] and [$] (no [m] flag) accepts a string when the
    whole string is in its language; [test] decides that by derivatives. *)

Module Regex.

Inductive regex : Type :=
| Void
| Eps
| Class (cls : N -> bool)
| Cat (r1 r2 : regex)
| Alt (r1 r2 : regex)
| Star (r : regex).

(** [r?] *)
Definition Opt (r : regex) : regex := Alt r Eps.

(** [r{n,}] *)
Fixpoint AtLeast (n : nat) (r : regex) : regex :=
  match n with
  | O => Star r
  | S n' => Cat r (AtLeast n' r)
  end.

Fixpoint nullable (r : regex) : bool :=
  match r with
  | Void => false
  | Eps => true
  | Class _ => false
  | Cat r1 r2 => nullable r1 && nullable r2
  | Alt r1 r2 => nullable r1 || nullable r2
  | Star _ => true
  end.

Fixpoint deriv (c : N) (r : regex) : regex :=
  match r with
  | Void => Void
  | Eps => Void
  | Class cls => if cls c then Eps else Void
  | Cat r1 r2 =>
      if nullable r1 then Alt (Cat (deriv c r1) r2) (deriv c r2)
      else Cat (deriv c r1) r2
  | Alt r1 r2 => Alt (deriv c r1) (deriv c r2)
  | Star r1 => Cat (deriv c r1) (Star r1)
  end.

(** [/^r$/.test(s)] *)
Fixpoint test (r : regex) (s : jsstring) : bool :=
  match s with
  | [] => nullable r
  | c :: s' => test (deriv c r) s'
  end.

(** The language of a pattern. *)
Inductive matches : regex -> jsstring -> Prop :=
| MEps : matches Eps []
| MClass cls c : cls c = true -> matches (Class cls) [c]
| MCat r1 r2 s1 s2 :
    matches r1 s1 -> matches r2 s2 -> matches (Cat r1 r2) (s1 ++ s2)
| MAltL r1 r2 s : matches r1 s -> matches (Alt r1 r2) s
| MAltR r1 r2 s : matches r2 s -> matches (Alt r1 r2) s
| MStarNil r : matches (Star r) []
| MStarApp r s1 s2 :
    matches r s1 -> matches (Star r) s2 -> matches (Star r) (s1 ++ s2).

End Regex.
Import Regex.

(** ** JSON values, objects and errors *)

#[local] Set Warnings "-register-all".

Inductive jsval : Type :=
| JNull
| JBool (b : bool)
| JNum (n : Z)
| JStr (s : jsstring)
| JArr (l : list jsval)
| JObj (m : gmap string jsval).

Abbreviation obj := (gmap string jsval).

(** What a rejected call carries, as far as the handlers read it:
    [err.response.data.message] and [err.message]. *)
Record jserror : Type := {
  response_message : option jsstring;
  message : option jsstring
}.

(** [a || b] on optional strings: [a] when it is a non-empty string. *)
Definition or_else (a : option jsstring) (b : jsstring) : jsstring :=
  match a with
  | Some s => if truthy s then s else b
  | None => b
  end.

(** [err?.response?.data?.message || err?.message || fallback] *)
Definition error_text (err : jserror) (fallback : jsstring) : jsstring :=
  or_else (response_message err) (or_else (message err) fallback).

(** ** Workspace provisioner (src/services/workspace.service.ts) *)

Module Workspace.

Record CreatedWorkspace : Type := {
  id : jsstring;
  name : jsstring;
  slug : jsstring;
  role : jsstring
}.

(** Reading a property of [null] throws a TypeError; it has no
    [response], and its [message] is the engine's. *)
Definition null_property_error : jserror :=
  {| response_message := None;
     message := Some (lit "Cannot read properties of null (reading 'data')") |}.

(** [data.data]: [None] stands for [undefined]. *)
Definition get_data (data : jsval) : jserror + option jsval :=
  match data with
  | JNull => inl null_property_error
  | JObj m => inr (m !! "data")
  | _ => inr None
  end.

(** [createWorkspace], given how [axios.post] settled: rejected with an
    error, or resolved with the response body [response.data].
    The last line is [return data.data ?? data]. *)
Definition createWorkspace (response : jserror + jsval) : jserror + jsval :=
  match response with
  | inl err => inl err
  | inr data =>
      match get_data data with
      | inl err => inl err
      | inr (Some JNull) | inr None => inr data
      | inr (Some inner) => inr inner
      end
  end.

(** The four declared fields of a [CreatedWorkspace] are strings; the index
    signature admits any further field. *)
Definition is_string_field (k : string) (m : obj) : bool :=
  match m !! k with Some (JStr _) => true | _ => false end.

Definition is_workspace (v : jsval) : bool :=
  match v with
  | JObj m =>
      is_string_field "id" m && is_string_field "name" m
      && is_string_field "slug" m && is_string_field "role" m
  | _ => false
  end.

End Workspace.
Import Workspace.

(** ** The page (src/pages/NoWorkspace.tsx): types and state *)

Inductive Step : Type := profile | form | success.

(** The [useState] cells of the component. *)
Record State : Type := {
  step : Step;
  displayName : jsstring;
  workspaceName : jsstring;
  workspaceSlug : jsstring;
  slugEdited : bool;
  createdWorkspace : option CreatedWorkspace;
  isSubmitting : bool;
  isCopied : bool;
  isFinishing : bool;
  error : option jsstring
}.

(** What the handlers touch besides the component state: the cached user of
    [tokenService], the user of the auth context, the clock and the pending
    [setTimeout] deadlines (every timer of the page runs
    [setIsCopied(false)]), the children of [document.body] and the
    clipboard. *)
Record World : Type := {
  ui : State;
  storedUser : option obj;
  authUser : option obj;
  now : N;
  timers : list N;
  body : list nat;
  clipboard : jsstring
}.

Definition initialState : State :=
  {| step := profile; displayName := []; workspaceName := [];
     workspaceSlug := []; slugEdited := false; createdWorkspace := None;
     isSubmitting := false; isCopied := false; isFinishing := false;
     error := None |}.

Definition setStep (v : Step) (s : State) : State :=
  {| step := v; displayName := displayName s; workspaceName := workspaceName s;
     workspaceSlug := workspaceSlug s; slugEdited := slugEdited s;
     createdWorkspace := createdWorkspace s; isSubmitting := isSubmitting s;
     isCopied := isCopied s; isFinishing := isFinishing s; error := error s |}.

Definition setDisplayName (v : jsstring) (s : State) : State :=
  {| step := step s; displayName := v; workspaceName := workspaceName s;
     workspaceSlug := workspaceSlug s; slugEdited := slugEdited s;
     createdWorkspace := createdWorkspace s; isSubmitting := isSubmitting s;
     isCopied := isCopied s; isFinishing := isFinishing s; error := error s |}.

Definition setWorkspaceName (v : jsstring) (s : State) : State :=
  {| step := step s; displayName := displayName s; workspaceName := v;
     workspaceSlug := workspaceSlug s; slugEdited := slugEdited s;
     createdWorkspace := createdWorkspace s; isSubmitting := isSubmitting s;
     isCopied := isCopied s; isFinishing := isFinishing s; error := error s |}.

Definition setWorkspaceSlug (v : jsstring) (s : State) : State :=
  {| step := step s; displayName := displayName s;
     workspaceName := workspaceName s; workspaceSlug := v;
     slugEdited := slugEdited s; createdWorkspace := createdWorkspace s;
     isSubmitting := isSubmitting s; isCopied := isCopied s;
     isFinishing := isFinishing s; error := error s |}.

Definition setSlugEdited (v : bool) (s : State) : State :=
  {| step := step s; displayName := displayName s;
     workspaceName := workspaceName s; workspaceSlug := workspaceSlug s;
     slugEdited := v; createdWorkspace := createdWorkspace s;
     isSubmitting := isSubmitting s; isCopied := isCopied s;
     isFinishing := isFinishing s; error := error s |}.

Definition setCreatedWorkspace (v : option CreatedWorkspace) (s : State) : State :=
  {| step := step s; displayName := displayName s;
     workspaceName := workspaceName s; workspaceSlug := workspaceSlug s;
     slugEdited := slugEdited s; createdWorkspace := v;
     isSubmitting := isSubmitting s; isCopied := isCopied s;
     isFinishing := isFinishing s; error := error s |}.

Definition setIsSubmitting (v : bool) (s : State) : State :=
  {| step := step s; displayName := displayName s;
     workspaceName := workspaceName s; workspaceSlug := workspaceSlug s;
     slugEdited := slugEdited s; createdWorkspace := createdWorkspace s;
     isSubmitting := v; isCopied := isCopied s;
     isFinishing := isFinishing s; error := error s |}.

Definition setIsCopied (v : bool) (s : State) : State :=
  {| step := step s; displayName := displayName s;
     workspaceName := workspaceName s; workspaceSlug := workspaceSlug s;
     slugEdited := slugEdited s; createdWorkspace := createdWorkspace s;
     isSubmitting := isSubmitting s; isCopied := v;
     isFinishing := isFinishing s; error := error s |}.

Definition setError (v : option jsstring) (s : State) : State :=
  {| step := step s; displayName := displayName s;
     workspaceName := workspaceName s; workspaceSlug := workspaceSlug s;
     slugEdited := slugEdited s; createdWorkspace := createdWorkspace s;
     isSubmitting := isSubmitting s; isCopied := isCopied s;
     isFinishing := isFinishing s; error := v |}.

Definition with_ui (f : State -> State) (w : World) : World :=
  {| ui := f (ui w); storedUser := storedUser w; authUser := authUser w;
     now := now w; timers := timers w; body := body w;
     clipboard := clipboard w |}.

(** What the user and the environment can do to the page. *)
Inductive Event : Type :=
| Mount                                     (* first run of the init effect *)
| UserChanged (u : option obj)              (* the auth context publishes a user *)
| DisplayNameChange (v : jsstring)          (* onChange of the display-name input *)
| NameChange (v : jsstring)                 (* handleNameChange *)
| SlugChange (v : jsstring)                 (* handleSlugChange *)
| SaveName (outcome : jserror + option obj) (* handleSaveName and how updateAuthProfile settled *)
| CreateWorkspace (outcome : jserror + CreatedWorkspace)
                                            (* handleCreateWorkspace and how createWorkspace settled *)
| CopyCommand (clipboard_ok : bool)         (* handleCopyCommand and whether writeText resolved *)
| Elapse (dt : N).                          (* dt milliseconds pass *)

(** ** Helpers of the page *)

(** [/^\+?\d[\d\s\-().]{6,}$/] *)
Definition phone_tail (c : N) : bool :=
  is_digit c || is_whitespace c || (c =? 45)%N
  || (c =? 40)%N || (c =? 41)%N || (c =? 46)%N.

Definition phone_pattern : regex :=
  Cat (Opt (Class (N.eqb 43)))
      (Cat (Class is_digit) (AtLeast 6 (Class phone_tail))).

(** [name?.trim() ?? ''] then the pattern's [test]. *)
Definition looksLikePhone (name : option jsstring) : bool :=
  test phone_pattern (match name with Some s => trim s | None => [] end).

(** [user.name], declared a string: a missing or [null] field reads as
    absent. *)
Definition user_name (u : obj) : option jsstring :=
  match u !! "name" with
  | Some (JStr s) => Some s
  | _ => None
  end.

(** The condition of the init effect:
    [user && !looksLikePhone(user.name) && user.name?.trim()]. *)
Definition has_real_name (user : option obj) : bool :=
  match user with
  | Some u =>
      negb (looksLikePhone (user_name u))
      && match user_name u with Some s => truthy (trim s) | None => false end
  | None => false
  end.

(** [const bindCommand = createdWorkspace ? `/bind ${slug || id}` : ''] *)
Definition bindCommand (createdWorkspace : option CreatedWorkspace) : jsstring :=
  match createdWorkspace with
  | Some w => lit "/bind " ++ (if truthy (slug w) then slug w else id w)
  | None => []
  end.

(** The document: [createElement] yields a node that is nowhere in the tree;
    [appendChild] puts it last; [removeChild] takes that node out. *)
Definition createElement (children : list nat) : nat := S (list_max children).

Definition appendChild (n : nat) (children : list nat) : list nat :=
  children ++ [n].

Fixpoint removeChild (n : nat) (children : list nat) : list nat :=
  match children with
  | [] => []
  | m :: r => if Nat.eqb n m then r else m :: removeChild n r
  end.

(** The object literal of [handleSaveName]:
    [{ ...(stored ?? {}), ...(updatedProfile ?? {}), name: displayName.trim() }].
    A later spread overwrites an earlier one, and [name] comes last. *)
Definition merge_profile (stored updatedProfile : option obj)
    (typed : jsstring) : obj :=
  <["name" := JStr (trim typed)]>
    (default ∅ updatedProfile ∪ default ∅ stored).

Definition fallback_save : jsstring :=
  lit "Erro ao salvar o nome. Tente novamente.".

Definition fallback_create : jsstring :=
  lit "Ocorreu um erro ao criar o workspace. Tente novamente.".

(** The delay of the acknowledgment's [setTimeout], in milliseconds. *)
Definition copied_delay : N := 2500.

(** ** [toSlug] and the handlers *)

Section Helpers.

(** The runtime's [toLowerCase] and [normalize('NFD')]. *)
Variable toLowerCase : jsstring -> jsstring.
Variable normalizeNFD : jsstring -> jsstring.

(** The class [\u0300-\u036f] of the first replace. *)
Definition is_combining_mark (c : N) : bool := in_range 768 879 c.

(** [/[^a-z0-9\s-]/]: the units that the second replace deletes are those
    outside this class. *)
Definition slug_keep (c : N) : bool :=
  in_range 97 122 c || in_range 48 57 c || is_whitespace c || (c =? 45)%N.

Definition toSlug (value : jsstring) : jsstring :=
  replace_runs is_whitespace (lit "-") false
    (trim
       (delete_class (fun c => negb (slug_keep c))
          (delete_class is_combining_mark
             (normalizeNFD (toLowerCase value))))).

(** [handleNameChange]: the slug follows the name until [slugEdited]. *)
Definition handleNameChange (value : jsstring) (w : World) : World :=
  let w1 := with_ui (setWorkspaceName value) w in
  if slugEdited (ui w) then w1
  else with_ui (setWorkspaceSlug (toSlug value)) w1.

Definition handleSlugChange (value : jsstring) (w : World) : World :=
  with_ui (setWorkspaceSlug (toSlug value)) (with_ui (setSlugEdited true) w).

(** The init effect, run at mount and whenever [user] changes. *)
Definition initEffect (w : World) : World :=
  if has_real_name (authUser w) then with_ui (setStep form) w else w.

(** Modelled from the spec: [tokenService] (src/lib/axios) and the auth
    context's [updateUser] are not among the sources.  The specification has
    the local identity cache as a store with get and set where the last write
    wins, and the identity store as what the rest of the application reads:
    [tokenService.setUser(merged); updateUser(merged)] writes [merged] to
    both. *)
Definition publishUser (merged : obj) (w : World) : World :=
  {| ui := ui w; storedUser := Some merged; authUser := Some merged;
     now := now w; timers := timers w; body := body w;
     clipboard := clipboard w |}.

Definition handleSaveName (outcome : jserror + option obj) (w : World) : World :=
  if negb (truthy (trim (displayName (ui w)))) then w
  else
    let w1 := with_ui (setError None) (with_ui (setIsSubmitting true) w) in
    match outcome with
    | inr updatedProfile =>
        let merged :=
          merge_profile (storedUser w1) updatedProfile (displayName (ui w)) in
        initEffect
          (with_ui (setIsSubmitting false)
             (with_ui (setStep form) (publishUser merged w1)))
    | inl err =>
        with_ui (setIsSubmitting false)
          (with_ui (setError (Some (error_text err fallback_save))) w1)
    end.

(** The payload of [handleCreateWorkspace]:
    [{ name: workspaceName.trim(), slug: workspaceSlug || undefined }]. *)
Definition workspacePayload (s : State) : jsstring * option jsstring :=
  (trim (workspaceName s),
   if truthy (workspaceSlug s) then Some (workspaceSlug s) else None).

(** [handleCreateWorkspace].  A resolved call is taken at its declared type,
    [Promise<CreatedWorkspace>]: the handler stores what it gets without
    looking at it, so a body that is not a workspace is outside this
    model. *)
Definition handleCreateWorkspace (outcome : jserror + CreatedWorkspace)
    (w : World) : World :=
  if negb (truthy (trim (workspaceName (ui w)))) then w
  else
    let w1 := with_ui (setError None) (with_ui (setIsSubmitting true) w) in
    match outcome with
    | inr workspace =>
        with_ui (setIsSubmitting false)
          (with_ui (setStep success)
             (with_ui (setCreatedWorkspace (Some workspace)) w1))
    | inl err =>
        with_ui (setIsSubmitting false)
          (with_ui (setError (Some (error_text err fallback_create))) w1)
    end.

(** [handleCopyCommand]: the clipboard API, or on its failure a textarea
    that is appended, selected, copied from and removed; then the
    acknowledgment and its timer. *)
Definition handleCopyCommand (clipboard_ok : bool) (w : World) : World :=
  let command := bindCommand (createdWorkspace (ui w)) in
  let body' :=
    if clipboard_ok then body w
    else
      let textarea := createElement (body w) in
      removeChild textarea (appendChild textarea (body w)) in
  {| ui := setIsCopied true (ui w);
     storedUser := storedUser w; authUser := authUser w;
     now := now w;
     timers := timers w ++ [(now w + copied_delay)%N];
     body := body';
     clipboard := command |}.

(** Time passes: the timers that are due run [setIsCopied(false)]. *)
Definition elapse (dt : N) (w : World) : World :=
  let t := (now w + dt)%N in
  let due := List.filter (fun d => (d <=? t)%N) (timers w) in
  {| ui := match due with [] => ui w | _ => setIsCopied false (ui w) end;
     storedUser := storedUser w; authUser := authUser w;
     now := t;
     timers := List.filter (fun d => negb (d <=? t)%N) (timers w);
     body := body w;
     clipboard := clipboard w |}.

Definition setAuthUser (u : option obj) (w : World) : World :=
  {| ui := ui w; storedUser := storedUser w; authUser := u;
     now := now w; timers := timers w; body := body w;
     clipboard := clipboard w |}.

Definition handle (w : World) (e : Event) : World :=
  match e with
  | Mount => initEffect w
  | UserChanged u => initEffect (setAuthUser u w)
  | DisplayNameChange v => with_ui (setDisplayName v) w
  | NameChange v => handleNameChange v w
  | SlugChange v => handleSlugChange v w
  | SaveName outcome => handleSaveName outcome w
  | CreateWorkspace outcome => handleCreateWorkspace outcome w
  | CopyCommand ok => handleCopyCommand ok w
  | Elapse dt => elapse dt w
  end.

Definition run (w : World) (es : list Event) : World := fold_left handle es w.

End Helpers.

(** The page as it is first rendered, before the init effect. *)
Definition initialWorld (user stored : option obj) (children : list nat) : World :=
  {| ui := initialState; storedUser := stored; authUser := user;
     now := 0; timers := []; body := children; clipboard := [] |}.

(** For the acknowledgment: whether an event is a copy action, and the time
    that passes over a list of events. *)
Definition is_copy (e : Event) : bool :=
  match e with CopyCommand _ => true | _ => false end.

Definition elapsed (es : list Event) : N :=
  fold_right (fun e t => match e with Elapse dt => (dt + t)%N | _ => t end)
    0%N es.

(** A runtime conforms on Latin-1 when its [toLowerCase] and
    [normalize('NFD')] agree with the tables of [Latin1] on every string whose
    code units are all below U+0100.  Nothing is asked of them elsewhere. *)
Definition conforming (toLowerCase normalizeNFD : jsstring -> jsstring) : Prop :=
  (forall s, Forall Latin1.latin1 s -> toLowerCase s = Latin1.toLowerCase s)
  /\ (forall s, Forall Latin1.latin1 s -> normalizeNFD s = Latin1.normalizeNFD s).

(** The base letter of an accented Latin-1 letter, other units unchanged. *)
Definition base_letter (c : N) : N :=
  match Latin1.decomp1 c with
  | Some (b, _) => b
  | None => c
  end.

(** What one Latin-1 unit leaves in the string that [toSlug] then trims:
    lowercased, decomposed, marks deleted, units outside the kept class
    deleted. *)
Definition unit_contribution (c : N) : jsstring :=
  delete_class (fun u => negb (slug_keep u))
    (delete_class is_combining_mark (Latin1.nfd1 (Latin1.lower1 c))).

(** Whitespace below U+0100: TAB, LF, VT, FF, CR, SPACE and NO-BREAK SPACE. *)
Definition is_latin1_whitespace (c : N) : bool :=
  is_whitespace c && (c <? 256)%N.

(** ASCII letters and digits. *)
Definition is_ascii_alnum (c : N) : bool :=
  in_range 65 90 c || in_range 97 122 c || in_range 48 57 c.

(** Units that a slug is made of: [a-z], [0-9] and the hyphen. *)
Definition slug_char (c : N) : bool :=
  in_range 97 122 c || in_range 48 57 c || (c =? 45)%N.

(** The slug derivation as the amended specification words it, step by
    step, to be compared with [toSlug]: lowercase; strip the diacritics
    (decompose, drop the combining marks); delete whatever is then not a
    lowercase ASCII letter, a digit, whitespace or a hyphen; and join the
    words that are left -- the maximal stretches without whitespace -- by
    single hyphens, which is what trimming and collapsing each whitespace
    run to one hyphen come to. *)
Fixpoint words_from (current : jsstring) (s : jsstring) : list jsstring :=
  match s with
  | [] => match current with [] => [] | _ => [current] end
  | c :: r =>
      if is_whitespace c then
        match current with
        | [] => words_from [] r
        | _ => current :: words_from [] r
        end
      else words_from (current ++ [c]) r
  end.

Definition words (s : jsstring) : list jsstring := words_from [] s.

Fixpoint join_hyphen (ws : list jsstring) : jsstring :=
  match ws with
  | [] => []
  | [w] => w
  | w :: rest => w ++ lit "-" ++ join_hyphen rest
  end.

Definition strip_diacritics (normalizeNFD : jsstring -> jsstring)
    (s : jsstring) : jsstring :=
  List.flat_map (fun c => if is_combining_mark c then [] else [c])
    (normalizeNFD s).

Definition delete_others (s : jsstring) : jsstring :=
  List.flat_map (fun c => if slug_char c || is_whitespace c then [c] else []) s.

Definition slugify_amended (toLowerCase normalizeNFD : jsstring -> jsstring)
    (value : jsstring) : jsstring :=
  join_hyphen
    (words (delete_others (strip_diacritics normalizeNFD (toLowerCase value)))).

(** The shape that [phone_pattern] describes, read off a string: an optional
    [+], a digit, then at least six units of [tail]. *)
Definition strip_plus (s : jsstring) : jsstring :=
  match s with
  | c :: r => if (c =? 43)%N then r else s
  | [] => []
  end.

Definition phone_shape (tail : N -> bool) (s : jsstring) : bool :=
  match strip_plus s with
  | d :: rest => is_digit d && (6 <=? length rest) && forallb tail rest
  | [] => false
  end.

(** The tail class as the specification words it: digits, space, hyphen,
    parentheses, period. *)
Definition spec_phone_tail (c : N) : bool :=
  is_digit c || (c =? 32)%N || (c =? 45)%N
  || (c =? 40)%N || (c =? 41)%N || (c =? 46)%N.

(** ** Further parts of the page *)

Definition is_slug_change (e : Event) : bool :=
  match e with SlugChange _ => true | _ => false end.

(** ASCII letters. *)
Definition is_ascii_letter (c : N) : bool :=
  in_range 65 90 c || in_range 97 122 c.

(** [(user?.role || '')]: the role is declared a string; a missing one
    reads as the empty string. *)
Definition user_role (user : option obj) : jsstring :=
  match user with
  | Some u => match u !! "role" with Some (JStr s) => s | _ => [] end
  | None => []
  end.

(** Pending resets lie ahead, no further than the delay; and while the flag
    is up one is pending. *)
Definition timers_sound (w : World) : Prop :=
  Forall (fun d => (now w < d <= now w + copied_delay)%N) (timers w)
  /\ (isCopied (ui w) = true -> timers w <> []).

Section Finish.

Variable toLowerCase : jsstring -> jsstring.

(** [handleFinish]: the path it navigates to.  [user] is the one of the
    render in which the button was clicked (the handler closes over it, so
    the refreshed user is not read), and [refreshed] tells whether
    [await refreshUser()] resolved; a rejection lands in the [catch]. *)
Definition finishRoute (user : option obj) (refreshed : bool) : jsstring :=
  if refreshed then
    let role := toLowerCase (user_role user) in
    if bool_decide (role = lit "admin") || bool_decide (role = lit "owner")
    then lit "/admin/dashboard"
    else lit "/user/dashboard"
  else lit "/user/dashboard".

End Finish.

(** * Proofs *)

(** ** The matcher decides the language of a pattern *)

Section RegexFacts.

Lemma nullable_matches r : nullable r = true <-> matches r [].
Proof.
  induction r as [ | | cls | r1 IH1 r2 IH2 | r1 IH1 r2 IH2 | r IH ]; simpl.
  - split; [discriminate | inversion 1].
  - split; [constructor | reflexivity].
  - split; [discriminate | inversion 1].
  - rewrite andb_true_iff, IH1, IH2. split.
    + intros [H1 H2]. exact (MCat _ _ [] [] H1 H2).
    + inversion 1 as [ | | ? ? s1 s2 H1 H2 Er Es | | | | ]; subst.
      apply app_eq_nil in Es as [-> ->]. auto.
  - rewrite orb_true_iff, IH1, IH2. split.
    + intros [H | H]; [apply MAltL | apply MAltR]; exact H.
    + inversion 1; subst; auto.
  - split; [constructor | reflexivity].
Qed.

Lemma star_cons_inv r c s :
  matches (Star r) (c :: s) ->
  exists s1 s2, s = s1 ++ s2 /\ matches r (c :: s1) /\ matches (Star r) s2.
Proof.
  intros H. remember (Star r) as r' eqn:Er. remember (c :: s) as t eqn:Et.
  revert Er Et.
  induction H as [ | | | | | | r0 s1 s2 H1 _ H2 IH2 ]; try discriminate.
  intros Er Et. injection Er as ->.
  destruct s1 as [ | c1 s1' ]; simpl in Et.
  - apply IH2; auto.
  - injection Et as Ec Es. subst c1 s. exists s1', s2. auto.
Qed.

Lemma deriv_matches r : forall c s, matches (deriv c r) s <-> matches r (c :: s).
Proof.
  induction r as [ | | cls | r1 IH1 r2 IH2 | r1 IH1 r2 IH2 | r IH ];
    intros c s; simpl.
  - split; inversion 1.
  - split; inversion 1.
  - destruct (cls c) eqn:Ec; split; intros H; inversion H; subst.
    + constructor. exact Ec.
    + constructor.
    + congruence.
  - assert (Hcat : matches (Cat (deriv c r1) r2) s ->
                   matches (Cat r1 r2) (c :: s)).
    { inversion 1 as [ | | ? ? s1 s2 H1 H2 | | | | ]; subst.
      apply IH1 in H1. exact (MCat _ _ (c :: s1) s2 H1 H2). }
    assert (Hinv : matches (Cat r1 r2) (c :: s) ->
                   matches (Cat (deriv c r1) r2) s
                   \/ (matches r1 [] /\ matches r2 (c :: s))).
    { inversion 1 as [ | | ? ? s1 s2 H1 H2 Er Es | | | | ]; subst.
      destruct s1 as [ | c1 s1' ]; simpl in Es.
      - subst s2. right. auto.
      - injection Es as Ec Es. subst c1 s. left.
        constructor; [apply IH1 | ]; assumption. }
    destruct (nullable r1) eqn:En.
    + split.
      * inversion 1; subst; [auto | ].
        apply nullable_matches in En.
        match goal with H : matches (deriv _ r2) _ |- _ => apply IH2 in H;
          exact (MCat _ _ [] _ En H) end.
      * intros H. destruct (Hinv H) as [H' | [_ H']];
          [apply MAltL | apply MAltR; apply IH2]; exact H'.
    + split; [exact Hcat | ].
      intros H. destruct (Hinv H) as [H' | [H' _]]; [exact H' | ].
      apply nullable_matches in H'. congruence.
  - split.
    + inversion 1; subst; [apply MAltL; apply IH1 | apply MAltR; apply IH2];
        assumption.
    + inversion 1; subst; [apply MAltL; apply IH1 | apply MAltR; apply IH2];
        assumption.
  - split.
    + inversion 1 as [ | | ? ? s1 s2 H1 H2 | | | | ]; subst.
      apply IH in H1. exact (MStarApp _ (c :: s1) s2 H1 H2).
    + intros H. apply star_cons_inv in H as (s1 & s2 & -> & H1 & H2).
      constructor; [apply IH | ]; assumption.
Qed.

Lemma test_matches r : forall s, test r s = true <-> matches r s.
Proof.
  intros s. revert r.
  induction s as [ | c s IH ]; intros r; simpl.
  - apply nullable_matches.
  - rewrite IH. apply deriv_matches.
Qed.

Lemma star_class_matches cls s :
  matches (Star (Class cls)) s <-> forallb cls s = true.
Proof.
  split.
  - intros H. remember (Star (Class cls)) as r eqn:Er. revert Er.
    induction H as [ | | | | | | r0 s1 s2 H1 _ H2 IH2 ]; try discriminate.
    + reflexivity.
    + intros Er. injection Er as ->.
      inversion H1; subst. simpl. rewrite IH2 by reflexivity.
      rewrite andb_true_r. assumption.
  - induction s as [ | c s IH ]; simpl.
    + constructor.
    + rewrite andb_true_iff. intros [Hc Hs].
      exact (MStarApp _ [c] s (MClass _ _ Hc) (IH Hs)).
Qed.

Lemma at_least_class_matches cls n :
  forall s, matches (AtLeast n (Class cls)) s
            <-> n <= length s /\ forallb cls s = true.
Proof.
  induction n as [ | n IH ]; intros s; simpl.
  - rewrite star_class_matches. split; [intros H; split; [lia | exact H] | tauto].
  - split.
    + inversion 1 as [ | | ? ? s1 s2 H1 H2 | | | | ]; subst.
      inversion H1; subst. apply IH in H2 as [Hn Hs]. simpl.
      split; [lia | ]. rewrite Hs, andb_true_r. assumption.
    + intros [Hn Hs]. destruct s as [ | c s ]; simpl in *; [lia | ].
      apply andb_true_iff in Hs as [Hc Hs].
      apply (MCat _ _ [c] s); [constructor; exact Hc | ].
      apply IH. split; [lia | exact Hs].
Qed.

End RegexFacts.

(** [looksLikePhone] accepts exactly the strings of the phone shape whose tail
    class is that of the pattern. *)
Lemma phone_pattern_shape s :
  test phone_pattern s = phone_shape phone_tail s.
Proof.
  apply eq_true_iff_eq. rewrite test_matches. unfold phone_pattern, phone_shape.
  split.
  - inversion 1 as [ | | ? ? s1 s23 H1 H23 | | | | ]; subst.
    inversion H23 as [ | | ? ? s2 s3 H2 H3 | | | | ]; subst.
    inversion H2 as [ | ? d Hd | | | | | ]; subst.
    apply (at_least_class_matches phone_tail 6) in H3 as [Hn Hs].
    assert (Hshape : is_digit d && (6 <=? length s3) && forallb phone_tail s3 = true).
    { rewrite Hd, Hs, (proj2 (Nat.leb_le _ _) Hn). reflexivity. }
    inversion H1 as [ | | | ? ? ? Hp | ? ? ? He | | ]; subst.
    + inversion Hp as [ | ? p Hp' | | | | | ]; subst. cbn [strip_plus app].
      rewrite N.eqb_sym, Hp'. exact Hshape.
    + inversion He; subst. cbn [strip_plus app].
      destruct (d =? 43)%N eqn:E43; [ | exact Hshape ].
      apply N.eqb_eq in E43. subst d. discriminate Hd.
  - intros H.
    assert (Hgen : forall t, match t with
                   | d :: rest => is_digit d && (6 <=? length rest)
                                  && forallb phone_tail rest
                   | [] => false end = true ->
                   matches (Cat (Class is_digit) (AtLeast 6 (Class phone_tail))) t).
    { intros [ | d rest ]; [discriminate | ].
      rewrite !andb_true_iff. intros [[Hd Hn] Hs].
      apply (MCat _ _ [d] rest); [constructor; exact Hd | ].
      apply (at_least_class_matches phone_tail 6).
      split; [apply Nat.leb_le; exact Hn | exact Hs]. }
    destruct s as [ | c r ]; [discriminate | ]. cbn [strip_plus] in H.
    destruct (c =? 43)%N eqn:E43.
    + apply (MCat _ _ [c] r); [ | apply Hgen; exact H ].
      apply MAltL. constructor. rewrite N.eqb_sym. exact E43.
    + apply (MCat _ _ [] (c :: r)); [ | apply Hgen; exact H ].
      apply MAltR. constructor.
Qed.

(** ** Code-unit classes *)

Ltac char_cases :=
  repeat (match goal with
          | |- context [(?a <=? ?b)%N] => destruct (N.leb_spec a b)
          | |- context [(?a =? ?b)%N] => destruct (N.eqb_spec a b)
          | H : context [(?a <=? ?b)%N] |- _ => destruct (N.leb_spec a b)
          | H : context [(?a =? ?b)%N] |- _ => destruct (N.eqb_spec a b)
          end;
          cbn [andb orb negb] in *; try discriminate; try lia);
  try reflexivity.

Ltac unfold_classes :=
  unfold slug_char, slug_keep, is_combining_mark, is_whitespace, is_digit,
    Latin1.lower1, Latin1.nfd1, Latin1.decomp1, Latin1.latin1, in_range in *.

Lemma slug_char_bound c : slug_char c = true -> (c < 128)%N.
Proof. unfold_classes. char_cases. Qed.

Lemma slug_char_keep c : slug_char c = true -> slug_keep c = true.
Proof. unfold_classes. char_cases. Qed.

Lemma slug_char_not_whitespace c : slug_char c = true -> is_whitespace c = false.
Proof. unfold_classes. char_cases. Qed.

Lemma slug_char_not_mark c : slug_char c = true -> is_combining_mark c = false.
Proof. unfold_classes. char_cases. Qed.

Lemma slug_char_lower c : slug_char c = true -> Latin1.lower1 c = c.
Proof. unfold_classes. char_cases. Qed.

Lemma slug_char_nfd c : slug_char c = true -> Latin1.nfd1 c = [c].
Proof. unfold_classes. char_cases. Qed.

Lemma keep_slug_char c :
  slug_keep c = true -> is_whitespace c = false -> slug_char c = true.
Proof.
  unfold slug_keep, slug_char. intros H Hw. rewrite Hw in H.
  rewrite orb_false_r in H. exact H.
Qed.

(** ** Trimming and the replaces, on lists *)

Lemma forallb_rev (P : N -> bool) s : forallb P (rev s) = forallb P s.
Proof.
  apply eq_true_iff_eq. rewrite !forallb_forall.
  split; intros H x Hx; apply H; [apply in_rev in Hx | apply in_rev]; exact Hx.
Qed.

Lemma trimStart_forallb (P : N -> bool) s :
  forallb P s = true -> forallb P (trimStart s) = true.
Proof.
  induction s as [ | c s IH ]; simpl; [reflexivity | ].
  intros H. destruct (is_whitespace c).
  - apply IH. apply andb_true_iff in H. tauto.
  - exact H.
Qed.

Lemma trim_forallb (P : N -> bool) s :
  forallb P s = true -> forallb P (trim s) = true.
Proof.
  intros H. unfold trim, trimEnd. rewrite forallb_rev.
  apply trimStart_forallb. rewrite forallb_rev.
  apply trimStart_forallb. exact H.
Qed.

Lemma trimStart_no_whitespace s :
  forallb (fun c => negb (is_whitespace c)) s = true -> trimStart s = s.
Proof.
  destruct s as [ | c s ]; simpl; [reflexivity | ].
  destruct (is_whitespace c); [discriminate | reflexivity].
Qed.

Lemma trim_no_whitespace s :
  forallb (fun c => negb (is_whitespace c)) s = true -> trim s = s.
Proof.
  intros H. unfold trim, trimEnd.
  rewrite (trimStart_no_whitespace s H).
  rewrite trimStart_no_whitespace by (rewrite forallb_rev; exact H).
  apply rev_involutive.
Qed.

Lemma delete_class_none cls s :
  forallb (fun c => negb (cls c)) s = true -> delete_class cls s = s.
Proof.
  unfold delete_class. induction s as [ | c s IH ]; simpl; [reflexivity | ].
  intros H. apply andb_true_iff in H as [Hc Hs]. rewrite Hc, IH by exact Hs.
  reflexivity.
Qed.

Lemma delete_class_forallb cls s :
  forallb (fun c => negb (cls c)) (delete_class cls s) = true.
Proof.
  unfold delete_class. induction s as [ | c s IH ]; simpl; [reflexivity | ].
  destruct (cls c) eqn:E; simpl; [exact IH | ]. rewrite E, IH. reflexivity.
Qed.

Lemma replace_runs_none cls by_ s :
  forallb (fun c => negb (cls c)) s = true ->
  forall in_run, replace_runs cls by_ in_run s = s.
Proof.
  induction s as [ | c s IH ]; simpl; [reflexivity | ].
  intros H in_run. apply andb_true_iff in H as [Hc Hs].
  apply negb_true_iff in Hc. rewrite Hc, IH by exact Hs. reflexivity.
Qed.

Lemma forallb_weaken (P Q : N -> bool) s :
  (forall c, P c = true -> Q c = true) ->
  forallb P s = true -> forallb Q s = true.
Proof.
  intros HPQ. rewrite !forallb_forall. intros H x Hx. apply HPQ, H, Hx.
Qed.

(** Whatever is left of the whitespace after the deletions is rewritten to
    hyphens, so the result is made of slug units. *)
Lemma replace_runs_slug_chars s :
  forallb slug_keep s = true ->
  forall in_run,
    forallb slug_char (replace_runs is_whitespace (lit "-") in_run s) = true.
Proof.
  induction s as [ | c s IH ]; simpl; [reflexivity | ].
  intros H in_run. apply andb_true_iff in H as [Hc Hs].
  destruct (is_whitespace c) eqn:Ew.
  - rewrite forallb_app, IH by exact Hs. destruct in_run; reflexivity.
  - simpl. rewrite IH by exact Hs. rewrite keep_slug_char by assumption.
    reflexivity.
Qed.

Lemma slug_chars_latin1 s :
  forallb slug_char s = true -> Forall Latin1.latin1 s.
Proof.
  rewrite forallb_forall, List.Forall_forall. intros H x Hx.
  apply H, slug_char_bound in Hx. unfold Latin1.latin1. lia.
Qed.

Lemma slug_chars_lower s :
  forallb slug_char s = true -> Latin1.toLowerCase s = s.
Proof.
  unfold Latin1.toLowerCase. induction s as [ | c s IH ]; simpl; [reflexivity | ].
  intros H. apply andb_true_iff in H as [Hc Hs].
  rewrite slug_char_lower, IH by assumption. reflexivity.
Qed.

Lemma slug_chars_nfd s :
  forallb slug_char s = true -> Latin1.normalizeNFD s = s.
Proof.
  unfold Latin1.normalizeNFD. induction s as [ | c s IH ]; simpl; [reflexivity | ].
  intros H. apply andb_true_iff in H as [Hc Hs].
  rewrite slug_char_nfd, IH by assumption. reflexivity.
Qed.

(** A property of all 256 Latin-1 units can be checked by running it. *)
Lemma all_latin1 (P : N -> bool) :
  forallb P (List.map N.of_nat (seq 0 256)) = true ->
  forall c, Latin1.latin1 c -> P c = true.
Proof.
  rewrite forallb_forall. intros H c Hc. apply H.
  rewrite <- (N2Nat.id c). apply in_map, in_seq.
  unfold Latin1.latin1 in Hc. lia.
Qed.

Lemma latin1_stage s :
  delete_class (fun u => negb (slug_keep u))
    (delete_class is_combining_mark
       (Latin1.normalizeNFD (Latin1.toLowerCase s)))
  = List.flat_map unit_contribution s.
Proof.
  unfold Latin1.normalizeNFD, Latin1.toLowerCase, delete_class.
  induction s as [ | c s IH ]; simpl; [reflexivity | ].
  rewrite !List.filter_app, IH. reflexivity.
Qed.

Lemma base_letter_latin1 c : Latin1.latin1 c -> Latin1.latin1 (base_letter c).
Proof.
  intros Hc. unfold Latin1.latin1.
  apply N.ltb_lt.
  exact (all_latin1 (fun c => (base_letter c <? 256)%N) eq_refl c Hc).
Qed.

Lemma base_letter_contribution c :
  Latin1.latin1 c -> unit_contribution (base_letter c) = unit_contribution c.
Proof.
  intros Hc.
  apply (bool_decide_eq_true_1 _).
  exact (all_latin1
           (fun c => bool_decide
                       (unit_contribution (base_letter c) = unit_contribution c))
           eq_refl c Hc).
Qed.

Lemma punctuation_contribution c :
  (c < 128)%N -> is_ascii_alnum c = false -> is_whitespace c = false ->
  c <> 45%N -> unit_contribution c = [].
Proof.
  intros Hc Ha Hw Hh. unfold unit_contribution, delete_class.
  assert (Hnfd : Latin1.nfd1 (Latin1.lower1 c) = [Latin1.lower1 c]).
  { clear Ha Hw Hh. unfold_classes. char_cases. }
  assert (Hm : is_combining_mark (Latin1.lower1 c) = false).
  { clear Ha Hw Hh Hnfd. unfold_classes. char_cases. }
  assert (Hl : Latin1.lower1 c = c).
  { clear Hw Hnfd Hm. unfold is_ascii_alnum in Ha. unfold_classes. char_cases. }
  rewrite Hnfd. simpl. rewrite Hm. simpl. rewrite Hl.
  assert (Hk : slug_keep c = false).
  { unfold slug_keep. rewrite Hw.
    unfold is_ascii_alnum in Ha. apply orb_false_iff in Ha as [Ha Hd].
    apply orb_false_iff in Ha as [_ Ha]. rewrite Ha, Hd.
    simpl. apply N.eqb_neq. exact Hh. }
  rewrite Hk. reflexivity.
Qed.

Lemma forallb_latin1 s :
  forallb (fun c => (c <? 256)%N) s = true -> Forall Latin1.latin1 s.
Proof.
  rewrite forallb_forall, List.Forall_forall. intros H x Hx.
  apply N.ltb_lt, H, Hx.
Qed.

Lemma lower1_latin1 c : Latin1.latin1 c -> Latin1.latin1 (Latin1.lower1 c).
Proof. unfold_classes. char_cases. Qed.

Lemma lower1_contribution c :
  Latin1.latin1 c ->
  unit_contribution (Latin1.lower1 c) = unit_contribution c.
Proof.
  intros Hc.
  apply (bool_decide_eq_true_1 _).
  exact (all_latin1
           (fun c => bool_decide
                       (unit_contribution (Latin1.lower1 c) = unit_contribution c))
           eq_refl c Hc).
Qed.

(** Slug units and whitespace pass the first four stages as they are. *)
Lemma kept_contribution c :
  Latin1.latin1 c -> slug_char c || is_whitespace c = true ->
  unit_contribution c = [c].
Proof.
  intros Hc Hk.
  pose proof (all_latin1
                (fun c => implb (slug_char c || is_whitespace c)
                            (bool_decide (unit_contribution c = [c])))
                eq_refl c Hc) as H.
  cbv beta in H. rewrite Hk in H. exact (bool_decide_eq_true_1 _ H).
Qed.

Lemma kept_stage s :
  Forall Latin1.latin1 s ->
  forallb (fun c => slug_char c || is_whitespace c) s = true ->
  List.flat_map unit_contribution s = s.
Proof.
  induction 1 as [ | c s Hc _ IH ]; simpl; [reflexivity | ].
  intros H. apply andb_true_iff in H as [Hk Hs].
  rewrite kept_contribution, IH by assumption. reflexivity.
Qed.

Lemma trimStart_app_whitespace h s :
  forallb is_whitespace h = true -> trimStart (h ++ s) = trimStart s.
Proof.
  induction h as [ | c h IH ]; simpl; [reflexivity | ].
  intros H. apply andb_true_iff in H as [Hc Hh]. rewrite Hc. apply IH, Hh.
Qed.

Lemma trimEnd_app_whitespace s k :
  forallb is_whitespace k = true -> trimEnd (s ++ k) = trimEnd s.
Proof.
  intros H. unfold trimEnd. rewrite rev_app_distr.
  rewrite trimStart_app_whitespace by (rewrite forallb_rev; exact H).
  reflexivity.
Qed.

Lemma trimEnd_word s c :
  is_whitespace c = false -> trimEnd (s ++ [c]) = s ++ [c].
Proof.
  intros H. unfold trimEnd. rewrite rev_app_distr. simpl. rewrite H.
  simpl. rewrite rev_involutive. reflexivity.
Qed.

Lemma replace_runs_word cls by_ t s :
  forallb (fun c => negb (cls c)) t = true ->
  forall in_run,
    replace_runs cls by_ in_run (t ++ s)
    = t ++ replace_runs cls by_ (match t with [] => in_run | _ => false end) s.
Proof.
  induction t as [ | c t IH ]; simpl; [reflexivity | ].
  intros H in_run. apply andb_true_iff in H as [Hc Ht].
  apply negb_true_iff in Hc. rewrite Hc, IH by exact Ht.
  destruct t; reflexivity.
Qed.

Lemma replace_runs_run cls by_ r s :
  forallb cls r = true ->
  replace_runs cls by_ true (r ++ s) = replace_runs cls by_ true s.
Proof.
  induction r as [ | c r IH ]; simpl; [reflexivity | ].
  intros H. apply andb_true_iff in H as [Hc Hr]. rewrite Hc. apply IH, Hr.
Qed.

(** Two words between whitespace: trimming drops the outer whitespace and
    the last replace writes one hyphen for the inner run. *)
Lemma trim_collapse_words h t r u k :
  forallb is_whitespace h = true -> forallb is_whitespace r = true ->
  forallb is_whitespace k = true ->
  forallb slug_char t = true -> forallb slug_char u = true ->
  t <> [] -> r <> [] -> u <> [] ->
  replace_runs is_whitespace (lit "-") false (trim (h ++ t ++ r ++ u ++ k))
  = t ++ lit "-" ++ u.
Proof.
  intros Hh Hr Hk Ht Hu Hte Hre Hue.
  assert (Hnw : forall w, forallb slug_char w = true ->
                          forallb (fun c => negb (is_whitespace c)) w = true).
  { intros w Hw. eapply forallb_weaken; [ | exact Hw ].
    intros c Hc. rewrite slug_char_not_whitespace by exact Hc. reflexivity. }
  assert (Htrim : trim (h ++ t ++ r ++ u ++ k) = t ++ r ++ u).
  { unfold trim. rewrite trimStart_app_whitespace by exact Hh.
    destruct t as [ | c t ]; [congruence | ].
    simpl in Ht. apply andb_true_iff in Ht as [Hc Ht].
    cbn [app trimStart]. rewrite slug_char_not_whitespace by exact Hc.
    change (c :: t ++ r ++ u ++ k) with ((c :: t) ++ r ++ (u ++ k)).
    rewrite !app_assoc. rewrite trimEnd_app_whitespace by exact Hk.
    destruct (exists_last Hue) as (u' & d & ->).
    rewrite forallb_app in Hu. apply andb_true_iff in Hu as [_ Hd].
    simpl in Hd. rewrite andb_true_r in Hd.
    rewrite !app_assoc. apply trimEnd_word.
    apply slug_char_not_whitespace, Hd. }
  rewrite Htrim.
  rewrite replace_runs_word by (apply Hnw, Ht).
  destruct t as [ | c t ]; [congruence | ].
  destruct r as [ | e r ]; [congruence | ].
  simpl in Hr. apply andb_true_iff in Hr as [He Hr].
  cbn [app replace_runs]. rewrite He.
  rewrite replace_runs_run by exact Hr.
  rewrite replace_runs_none by (apply Hnw, Hu). reflexivity.
Qed.

(** ** The ends of a trimmed string *)

Lemma trimStart_head s c r : trimStart s = c :: r -> is_whitespace c = false.
Proof.
  induction s as [ | d s IH ]; simpl; [discriminate | ].
  destruct (is_whitespace d) eqn:Ed; [exact IH | ].
  intros H. injection H as <- _. exact Ed.
Qed.

Lemma trimStart_fixed c r : is_whitespace c = false -> trimStart (c :: r) = c :: r.
Proof. intros H. simpl. rewrite H. reflexivity. Qed.

Lemma trimStart_keeps_last y c :
  is_whitespace c = false -> exists x, trimStart (y ++ [c]) = x ++ [c].
Proof.
  intros Hc. induction y as [ | d y IH ]; simpl.
  - rewrite Hc. exists []. reflexivity.
  - destruct (is_whitespace d); [exact IH | ]. exists (d :: y). reflexivity.
Qed.

Lemma trimEnd_keeps_head c r :
  is_whitespace c = false -> exists r', trimEnd (c :: r) = c :: r'.
Proof.
  intros Hc. unfold trimEnd. simpl.
  destruct (trimStart_keeps_last (rev r) c Hc) as (x & ->).
  exists (rev x). rewrite rev_app_distr. reflexivity.
Qed.

Lemma trim_head s c r : trim s = c :: r -> is_whitespace c = false.
Proof.
  unfold trim. destruct (trimStart s) as [ | d t ] eqn:E; [discriminate | ].
  pose proof (trimStart_head s d t E) as Hd.
  destruct (trimEnd_keeps_head d t Hd) as (r' & ->).
  intros H. injection H as <- _. exact Hd.
Qed.

Lemma trimEnd_last x r c : trimEnd x = r ++ [c] -> is_whitespace c = false.
Proof.
  unfold trimEnd. intros H.
  apply (f_equal (@rev N)) in H.
  rewrite rev_involutive, rev_app_distr in H. simpl in H.
  exact (trimStart_head _ _ _ H).
Qed.

Lemma trim_last s r c : trim s = r ++ [c] -> is_whitespace c = false.
Proof. unfold trim. apply trimEnd_last. Qed.

(** ** Trimming and collapsing is joining the words *)

Lemma words_from_whitespace k :
  forallb is_whitespace k = true ->
  forall current,
    words_from current k = match current with [] => [] | _ => [current] end.
Proof.
  induction k as [ | c k IH ]; simpl; [reflexivity | ].
  intros H current. apply andb_true_iff in H as [Hc Hk]. rewrite Hc.
  rewrite (IH Hk []). destruct current; reflexivity.
Qed.

Lemma words_from_app_whitespace x k :
  forallb is_whitespace k = true ->
  forall current, words_from current (x ++ k) = words_from current x.
Proof.
  intros Hk. induction x as [ | c x IH ]; intros current.
  - simpl. apply words_from_whitespace, Hk.
  - simpl. destruct (is_whitespace c); [ | apply IH ].
    rewrite IH. reflexivity.
Qed.

Lemma words_trimStart s : words (trimStart s) = words s.
Proof.
  unfold words. induction s as [ | c s IH ]; simpl; [reflexivity | ].
  destruct (is_whitespace c) eqn:Ec; [exact IH | ].
  simpl. rewrite Ec. reflexivity.
Qed.

Lemma trimEnd_splits s :
  exists k, s = trimEnd s ++ k /\ forallb is_whitespace k = true.
Proof.
  unfold trimEnd. induction s as [ | c s IH ] using rev_ind.
  - exists []. split; reflexivity.
  - rewrite rev_app_distr. simpl. destruct (is_whitespace c) eqn:Ec.
    + destruct IH as (k & Hs & Hk). exists (k ++ [c]). split.
      * rewrite app_assoc, <- Hs. reflexivity.
      * rewrite forallb_app, Hk. simpl. rewrite Ec. reflexivity.
    + exists []. simpl. rewrite rev_involutive, app_nil_r. split; reflexivity.
Qed.

Lemma words_trimEnd s : words (trimEnd s) = words s.
Proof.
  destruct (trimEnd_splits s) as (k & Hs & Hk).
  rewrite Hs at 2. unfold words.
  rewrite words_from_app_whitespace by exact Hk. reflexivity.
Qed.

Lemma words_trim s : words (trim s) = words s.
Proof. unfold trim. rewrite words_trimEnd. apply words_trimStart. Qed.

Lemma words_from_nonempty c s :
  In c s -> is_whitespace c = false ->
  forall current, words_from current s <> [].
Proof.
  intros Hin Hc. induction s as [ | d s IH ]; intros current;
    [destruct Hin | ].
  simpl. destruct (is_whitespace d) eqn:Ed.
  - destruct Hin as [-> | Hin]; [congruence | ].
    destruct current; [apply IH, Hin | discriminate].
  - destruct Hin as [-> | Hin].
    + destruct s as [ | e s ]; simpl.
      * destruct (current ++ [c]) eqn:E; [ | discriminate ].
        apply app_eq_nil in E as [_ E]. discriminate.
      * clear IH. revert current.
        assert (Hgen : forall t cur, cur <> [] -> words_from cur t <> []).
        { induction t as [ | x t IHt ]; intros cur Hcur; simpl.
          - destruct cur; [congruence | discriminate].
          - destruct (is_whitespace x).
            + destruct cur; [congruence | discriminate].
            + apply IHt. intros E. apply app_eq_nil in E as [_ E]. discriminate. }
        intros current. apply (Hgen (e :: s)).
        intros E. apply app_eq_nil in E as [_ E]. discriminate.
    + apply IH, Hin.
Qed.

Lemma join_hyphen_cons w rest :
  rest <> [] -> join_hyphen (w :: rest) = w ++ lit "-" ++ join_hyphen rest.
Proof. destruct rest; [congruence | reflexivity]. Qed.

(** On a string that does not end in whitespace, the last replace writes
    the words joined by hyphens: after a word in progress, and at the start
    of a whitespace run already counted. *)
Lemma replace_runs_joins s :
  (forall r c, s = r ++ [c] -> is_whitespace c = false) ->
  (forall current, current <> [] ->
     join_hyphen (words_from current s)
     = current ++ replace_runs is_whitespace (lit "-") false s)
  /\ join_hyphen (words_from [] s)
     = replace_runs is_whitespace (lit "-") true s.
Proof.
  induction s as [ | c s IH ]; intros Hend.
  - split; [ | reflexivity ].
    intros current Hcur. simpl. destruct current; [congruence | ].
    rewrite app_nil_r. reflexivity.
  - assert (Hend' : forall r d, s = r ++ [d] -> is_whitespace d = false).
    { intros r d ->. apply (Hend (c :: r) d). reflexivity. }
    destruct (IH Hend') as [IH1 IH2]. simpl.
    destruct (is_whitespace c) eqn:Ec.
    + assert (Hne : words_from [] s <> []).
      { destruct s as [ | d s' ].
        - specialize (Hend [] c eq_refl). congruence.
        - assert (Hs : d :: s' <> []) by discriminate.
          destruct (exists_last Hs) as (r & e & Hre).
          apply (words_from_nonempty e).
          + rewrite Hre. apply in_or_app. right. left. reflexivity.
          + apply (Hend' r e Hre). }
      split.
      * intros current Hcur. destruct current as [ | x current ]; [congruence | ].
        rewrite join_hyphen_cons by exact Hne. rewrite IH2. reflexivity.
      * simpl. exact IH2.
    + split.
      * intros current Hcur. rewrite IH1.
        -- rewrite <- app_assoc. reflexivity.
        -- intros E. apply app_eq_nil in E as [_ E]. discriminate.
      * rewrite (IH1 [c]) by discriminate. reflexivity.
Qed.

Lemma trim_collapse_joins s :
  replace_runs is_whitespace (lit "-") false (trim s) = join_hyphen (words s).
Proof.
  rewrite <- words_trim.
  destruct (replace_runs_joins (trim s) (trim_last s)) as [_ H].
  unfold words. rewrite H.
  destruct (trim s) as [ | c r ] eqn:E; [reflexivity | ].
  simpl. rewrite (trim_head s c r E). reflexivity.
Qed.

Lemma strip_diacritics_deletes normalizeNFD s :
  strip_diacritics normalizeNFD s
  = delete_class is_combining_mark (normalizeNFD s).
Proof.
  unfold strip_diacritics, delete_class.
  induction (normalizeNFD s) as [ | c r IH ]; simpl; [reflexivity | ].
  rewrite IH. destruct (is_combining_mark c); reflexivity.
Qed.

Lemma delete_others_deletes s :
  delete_others s = delete_class (fun c => negb (slug_keep c)) s.
Proof.
  unfold delete_others, delete_class.
  induction s as [ | c r IH ]; simpl; [reflexivity | ].
  rewrite IH, negb_involutive.
  assert (Hk : slug_char c || is_whitespace c = slug_keep c).
  { unfold slug_char, slug_keep.
    destruct (in_range 97 122 c), (in_range 48 57 c), (c =? 45)%N,
      (is_whitespace c); reflexivity. }
  rewrite Hk. destruct (slug_keep c); reflexivity.
Qed.

(** [toSlug] is the amended derivation, on every string and every runtime. *)
Lemma toSlug_is_amended toLowerCase normalizeNFD value :
  toSlug toLowerCase normalizeNFD value
  = slugify_amended toLowerCase normalizeNFD value.
Proof.
  unfold toSlug, slugify_amended.
  rewrite trim_collapse_joins, delete_others_deletes, strip_diacritics_deletes.
  reflexivity.
Qed.

(** ** Facts about [toSlug] on any conforming runtime *)

Section SlugFacts.

Variable toLowerCase : jsstring -> jsstring.
Variable normalizeNFD : jsstring -> jsstring.

Local Abbreviation toSlug' := (toSlug toLowerCase normalizeNFD).

(** Needs nothing of the runtime: the deletions and the last replace
    decide the alphabet of the result. *)
Lemma toSlug_slug_chars value : forallb slug_char (toSlug' value) = true.
Proof.
  unfold toSlug. apply replace_runs_slug_chars, trim_forallb.
  eapply forallb_weaken; [ | apply delete_class_forallb ].
  intros c. cbv beta. rewrite negb_involutive. trivial.
Qed.

Hypothesis runtime : conforming toLowerCase normalizeNFD.

Lemma toSlug_fixes_slugs t : forallb slug_char t = true -> toSlug' t = t.
Proof.
  intros H. destruct runtime as [Hlower Hnfd]. unfold toSlug.
  rewrite Hlower, slug_chars_lower by auto using slug_chars_latin1.
  rewrite Hnfd, slug_chars_nfd by auto using slug_chars_latin1.
  rewrite (delete_class_none is_combining_mark)
    by (eapply forallb_weaken; [ | exact H ];
        intros c Hc; rewrite slug_char_not_mark by exact Hc; reflexivity).
  rewrite delete_class_none
    by (eapply forallb_weaken; [ | exact H ];
        intros c Hc; cbv beta; rewrite slug_char_keep by exact Hc;
        reflexivity).
  assert (Hw : forallb (fun c => negb (is_whitespace c)) t = true).
  { eapply forallb_weaken; [ | exact H ].
    intros c Hc. rewrite slug_char_not_whitespace by exact Hc. reflexivity. }
  rewrite trim_no_whitespace by exact Hw.
  apply replace_runs_none. exact Hw.
Qed.

Lemma toSlug_twice value : toSlug' (toSlug' value) = toSlug' value.
Proof. apply toSlug_fixes_slugs, toSlug_slug_chars. Qed.

(** On Latin-1 input every conforming runtime computes the same slug. *)
Lemma toSlug_on_latin1 value :
  Forall Latin1.latin1 value ->
  toSlug' value = toSlug Latin1.toLowerCase Latin1.normalizeNFD value.
Proof.
  intros H. destruct runtime as [Hlower Hnfd]. unfold toSlug.
  rewrite Hlower by exact H. rewrite Hnfd; [reflexivity | ].
  unfold Latin1.toLowerCase. apply List.Forall_forall. intros x Hx.
  apply in_map_iff in Hx as (c & <- & Hc).
  rewrite List.Forall_forall in H. specialize (H c Hc).
  unfold_classes. char_cases.
Qed.

(** A Latin-1 unit that contributes nothing can be dropped from the
    input. *)
Lemma toSlug_drop_unit x c y :
  Forall Latin1.latin1 x -> Forall Latin1.latin1 y -> Latin1.latin1 c ->
  unit_contribution c = [] ->
  toSlug' (x ++ c :: y) = toSlug' (x ++ y).
Proof.
  intros Hx Hy Hc H0.
  rewrite !toSlug_on_latin1
    by (apply Forall_app; split; [ | try apply Forall_cons ]; auto).
  unfold toSlug. rewrite !latin1_stage, !flat_map_app. simpl.
  rewrite H0. reflexivity.
Qed.

Lemma toSlug_base_letters value :
  Forall Latin1.latin1 value ->
  toSlug' (List.map base_letter value) = toSlug' value.
Proof.
  intros H.
  assert (Hb : Forall Latin1.latin1 (List.map base_letter value)).
  { induction H; simpl; constructor; auto using base_letter_latin1. }
  rewrite !toSlug_on_latin1 by assumption.
  unfold toSlug. rewrite !latin1_stage. f_equal. f_equal.
  clear Hb. induction H as [ | c s Hc Hs IH ]; simpl; [reflexivity | ].
  rewrite base_letter_contribution, IH by exact Hc. reflexivity.
Qed.

Lemma toSlug_lowercased value :
  Forall Latin1.latin1 value ->
  toSlug' (List.map Latin1.lower1 value) = toSlug' value.
Proof.
  intros H.
  assert (Hl : Forall Latin1.latin1 (List.map Latin1.lower1 value)).
  { induction H; simpl; constructor; auto using lower1_latin1. }
  rewrite !toSlug_on_latin1 by assumption.
  unfold toSlug. rewrite !latin1_stage. f_equal. f_equal.
  clear Hl. induction H as [ | c s Hc Hs IH ]; simpl; [reflexivity | ].
  rewrite lower1_contribution, IH by exact Hc. reflexivity.
Qed.

Lemma toSlug_words h t r u k :
  forallb is_latin1_whitespace h = true ->
  forallb is_latin1_whitespace r = true ->
  forallb is_latin1_whitespace k = true ->
  forallb slug_char t = true -> forallb slug_char u = true ->
  t <> [] -> r <> [] -> u <> [] ->
  toSlug' (h ++ t ++ r ++ u ++ k) = t ++ lit "-" ++ u.
Proof.
  intros Hh Hr Hk Ht Hu Hte Hre Hue.
  assert (Hws : forall w, forallb is_latin1_whitespace w = true ->
                  forallb is_whitespace w = true
                  /\ Forall Latin1.latin1 w
                  /\ forallb (fun c => slug_char c || is_whitespace c) w = true).
  { intros w Hw. split; [ | split ].
    - eapply forallb_weaken; [ | exact Hw ].
      intros c Hc. apply andb_true_iff in Hc. tauto.
    - apply forallb_latin1. eapply forallb_weaken; [ | exact Hw ].
      intros c Hc. apply andb_true_iff in Hc. tauto.
    - eapply forallb_weaken; [ | exact Hw ].
      intros c Hc. apply andb_true_iff in Hc as [Hc _]. rewrite Hc.
      apply orb_true_r. }
  assert (Hwd : forall w, forallb slug_char w = true ->
                  Forall Latin1.latin1 w
                  /\ forallb (fun c => slug_char c || is_whitespace c) w = true).
  { intros w Hw. split; [apply slug_chars_latin1, Hw | ].
    eapply forallb_weaken; [ | exact Hw ]. intros c Hc. rewrite Hc. reflexivity. }
  destruct (Hws h Hh) as (Hh1 & Hh2 & Hh3).
  destruct (Hws r Hr) as (Hr1 & Hr2 & Hr3).
  destruct (Hws k Hk) as (Hk1 & Hk2 & Hk3).
  destruct (Hwd t Ht) as (Ht2 & Ht3). destruct (Hwd u Hu) as (Hu2 & Hu3).
  rewrite toSlug_on_latin1 by (repeat (apply Forall_app; split); assumption).
  unfold toSlug. rewrite latin1_stage.
  rewrite kept_stage.
  - apply trim_collapse_words; assumption.
  - repeat (apply Forall_app; split); assumption.
  - rewrite !forallb_app, Hh3, Ht3, Hr3, Hu3, Hk3. reflexivity.
Qed.

End SlugFacts.

(** The tables are a conforming runtime. *)
Lemma latin1_conforming : conforming Latin1.toLowerCase Latin1.normalizeNFD.
Proof. split; intros s _; reflexivity. Qed.

(** ** The bind command *)

(** C1. For a created workspace the bind command is the literal [/bind ]
    followed at once by the slug, or by the id when the slug is the empty
    string, and nothing else; the two examples of the specification
    evaluate as stated.  [bindCommand] is a function of the created
    workspace alone, so recomputing it gives the same string. *)
Theorem bindCommand_format :
  (forall w : CreatedWorkspace,
      bindCommand (Some w)
      = lit "/bind " ++ (if decide (slug w = []) then id w else slug w))
  /\ (forall n r,
         bindCommand (Some {| id := lit "abc"; name := n;
                              slug := lit "pelada-fc"; role := r |})
         = lit "/bind pelada-fc")
  /\ (forall n r,
         bindCommand (Some {| id := lit "abc"; name := n;
                              slug := []; role := r |})
         = lit "/bind abc").
Proof.
  split; [ | split; intros; reflexivity ].
  intros w. unfold bindCommand.
  destruct (slug w) as [ | c r ]; simpl; reflexivity.
Qed.

(** ** The document *)

Lemma createElement_fresh children : ~ In (createElement children) children.
Proof.
  unfold createElement. intros H.
  assert (Hle : Forall (fun k => k <= list_max children) children)
    by (apply list_max_le; lia).
  rewrite List.Forall_forall in Hle. specialize (Hle _ H). lia.
Qed.

Lemma removeChild_appended n children :
  ~ In n children -> removeChild n (appendChild n children) = children.
Proof.
  unfold appendChild. induction children as [ | m r IH ]; simpl; intros H.
  - rewrite Nat.eqb_refl. reflexivity.
  - destruct (Nat.eqb_spec n m) as [-> | _]; [tauto | ].
    rewrite IH by tauto. reflexivity.
Qed.

Lemma copy_keeps_body ok w : body (handleCopyCommand ok w) = body w.
Proof.
  unfold handleCopyCommand. cbn [body]. destruct ok; [reflexivity | ].
  apply removeChild_appended, createElement_fresh.
Qed.


(** ** The wizard *)

Section WizardFacts.

Variable toLowerCase : jsstring -> jsstring.
Variable normalizeNFD : jsstring -> jsstring.

Local Abbreviation toSlug' := (toSlug toLowerCase normalizeNFD).
Local Abbreviation handle' := (handle toLowerCase normalizeNFD).
Local Abbreviation run' := (run toLowerCase normalizeNFD).

Ltac handler_cases :=
  cbn [handle];
  unfold handleNameChange, handleSlugChange, handleSaveName,
    handleCreateWorkspace, handleCopyCommand, elapse, initEffect,
    publishUser, setAuthUser, with_ui;
  cbn [ui authUser];
  repeat match goal with
         | |- context [if ?b then _ else _] => destruct b eqn:?
         | |- context [match ?x with inl _ => _ | inr _ => _ end] => destruct x
         | |- context [match ?x with [] => _ | _ :: _ => _ end] => destruct x
         end;
  cbn [ui step displayName workspaceName workspaceSlug slugEdited
       createdWorkspace isSubmitting isCopied isFinishing error
       setStep setDisplayName setWorkspaceName setWorkspaceSlug
       setSlugEdited setCreatedWorkspace setIsSubmitting setIsCopied
       setError];
  try congruence; auto.

Lemma run_app w es1 es2 : run' w (es1 ++ es2) = run' (run' w es1) es2.
Proof. unfold run. apply fold_left_app. Qed.

Lemma handle_keeps_latch w e :
  slugEdited (ui w) = true -> slugEdited (ui (handle' w e)) = true.
Proof. intros H. destruct e; handler_cases. Qed.

Lemma run_keeps_latch es :
  forall w, slugEdited (ui w) = true -> slugEdited (ui (run' w es)) = true.
Proof.
  induction es as [ | e es IH ]; intros w H; simpl; [exact H | ].
  apply IH, handle_keeps_latch, H.
Qed.

(** C2. Once the slug field has been edited directly, [slugEdited] stays
    set whatever happens next, and a change of the workspace name leaves
    the slug field as it is. *)
Theorem slug_latch (w : World) (before : list Event) (v : jsstring)
    (after : list Event) (n : jsstring) :
  let w' := run' (handle' (run' w before) (SlugChange v)) after in
  slugEdited (ui w') = true
  /\ workspaceSlug (ui (handle' w' (NameChange n))) = workspaceSlug (ui w')
  /\ workspaceName (ui (handle' w' (NameChange n))) = n.
Proof.
  intros w'.
  assert (H : slugEdited (ui w') = true).
  { apply run_keeps_latch. reflexivity. }
  split; [exact H | ].
  simpl. unfold handleNameChange. rewrite H. split; reflexivity.
Qed.

Lemma handle_keeps_slug_chars w e :
  forallb slug_char (workspaceSlug (ui w)) = true ->
  forallb slug_char (workspaceSlug (ui (handle' w e))) = true.
Proof.
  intros H. destruct e; handler_cases; apply toSlug_slug_chars.
Qed.

Lemma run_keeps_slug_chars es :
  forall w, forallb slug_char (workspaceSlug (ui w)) = true ->
            forallb slug_char (workspaceSlug (ui (run' w es))) = true.
Proof.
  induction es as [ | e es IH ]; intros w H; simpl; [exact H | ].
  apply IH, handle_keeps_slug_chars, H.
Qed.

(** C6, as the code has it.  When the creation call fails (the handler got
    past its blank-name guard, so the call was made), the step is the one it
    was, so the form step stays.  An error text is always set and it is never
    empty: the server's message when the server sent a non-empty one;
    otherwise the rejection's own message when it has a non-empty one (the
    transport's text, such as "Network Error"); and only when both are
    missing the fixed sentence of the handler.  Name, slug, latch and
    created workspace are as before, and the submitting flag is down
    again. *)
Theorem create_failure_keeps_draft (w : World) (err : jserror)
    (Hcall : truthy (trim (workspaceName (ui w))) = true) :
  let w' := handle' w (CreateWorkspace (inl err)) in
  let absent (m : option jsstring) := m = None \/ m = Some [] in
  step (ui w') = step (ui w)
  /\ (exists m, error (ui w') = Some m /\ m <> [])
  /\ (forall m, response_message err = Some m -> m <> [] ->
                error (ui w') = Some m)
  /\ (absent (response_message err) ->
      forall m, message err = Some m -> m <> [] -> error (ui w') = Some m)
  /\ (absent (response_message err) -> absent (message err) ->
      error (ui w')
      = Some (lit "Ocorreu um erro ao criar o workspace. Tente novamente."))
  /\ (response_message err = None \/ response_message err = Some [] ->
      error (ui w') = Some (or_else (message err) fallback_create))
  /\ workspaceName (ui w') = workspaceName (ui w)
  /\ workspaceSlug (ui w') = workspaceSlug (ui w)
  /\ slugEdited (ui w') = slugEdited (ui w)
  /\ createdWorkspace (ui w') = createdWorkspace (ui w)
  /\ isSubmitting (ui w') = false.
Proof.
  intros w' absent. subst w' absent. cbn [handle].
  unfold handleCreateWorkspace. rewrite Hcall. cbn [negb].
  cbn [with_ui ui step error workspaceName workspaceSlug slugEdited
       createdWorkspace isSubmitting setError setIsSubmitting].
  split; [reflexivity | ].
  split.
  { exists (error_text err fallback_create). split; [reflexivity | ].
    unfold error_text, or_else.
    destruct (response_message err) as [ [ | c r ] | ];
      destruct (message err) as [ [ | d t ] | ]; simpl; discriminate. }
  split.
  { intros m Hm Hne. unfold error_text. rewrite Hm.
    destruct m; [congruence | reflexivity]. }
  split.
  { intros Hs m Hm Hne. unfold error_text.
    destruct Hs as [-> | ->]; rewrite Hm; destruct m;
      try congruence; reflexivity. }
  split.
  { intros Hs Hm. unfold error_text.
    destruct Hs as [-> | ->]; destruct Hm as [-> | ->]; reflexivity. }
  split.
  { intros [Hm | Hm]; unfold error_text; rewrite Hm; reflexivity. }
  repeat split.
Qed.

(** Events other than a copy or the passing of time leave the flag, the
    timers and the clock alone. *)
Lemma handle_keeps_clock w e :
  is_copy e = false -> (forall dt, e <> Elapse dt) ->
  isCopied (ui (handle' w e)) = isCopied (ui w)
  /\ timers (handle' w e) = timers w
  /\ now (handle' w e) = now w.
Proof.
  intros Hc He. destruct e; try discriminate Hc;
    try (exfalso; eapply He; reflexivity); handler_cases.
Qed.

(** The flag comes down once a pending reset has fallen due. *)
Lemma flag_down_after es :
  forallb (fun e => negb (is_copy e)) es = true ->
  forall w,
    isCopied (ui w) = false
    \/ (exists d, In d (timers w) /\ (now w < d <= now w + elapsed es)%N) ->
    isCopied (ui (run' w es)) = false.
Proof.
  induction es as [ | e es IH ]; intros Hes w Hw.
  - destruct Hw as [Hw | (d & _ & Hd)]; [exact Hw | simpl in Hd; lia].
  - simpl in Hes. apply andb_true_iff in Hes as [He Hes].
    apply negb_true_iff in He.
    change (run' w (e :: es)) with (run' (handle' w e) es).
    apply IH; [exact Hes | ].
    destruct e as [ | u | v | v | v | o | o | ok | dt ];
      try discriminate He.
    8: {
      cbn [handle elapse ui timers now]. simpl in Hw.
      destruct Hw as [Hw | (d & Hin & Hd)].
      - left. destruct (List.filter _ (timers w)); [exact Hw | reflexivity].
      - destruct (N.leb_spec d (now w + dt)) as [Hle | Hgt].
        + left.
          assert (Hdue : In d (List.filter (fun d0 => (d0 <=? now w + dt)%N)
                                 (timers w))).
          { apply filter_In. split; [exact Hin | apply N.leb_le, Hle]. }
          destruct (List.filter _ (timers w)); [destruct Hdue | reflexivity].
        + right. exists d. split; [ | lia ].
          apply filter_In. split; [exact Hin | ].
          apply negb_true_iff, N.leb_gt, Hgt. }
    all: match goal with
         | |- context [handle toLowerCase normalizeNFD ?w0 ?e0] =>
             destruct (handle_keeps_clock w0 e0 eq_refl) as (Hf & Ht & Hn);
             [ intros dt; discriminate | ]
         end;
      rewrite Hf, Ht, Hn; exact Hw.
Qed.

(** The flag stays up while no pending reset falls due. *)
Lemma flag_up_until es :
  forallb (fun e => negb (is_copy e)) es = true ->
  forall w,
    isCopied (ui w) = true ->
    Forall (fun d => (now w + elapsed es < d)%N) (timers w) ->
    isCopied (ui (run' w es)) = true.
Proof.
  induction es as [ | e es IH ]; intros Hes w Hup Hw; [exact Hup | ].
  simpl in Hes. apply andb_true_iff in Hes as [He Hes].
  apply negb_true_iff in He.
  change (run' w (e :: es)) with (run' (handle' w e) es).
  destruct e as [ | u | v | v | v | o | o | ok | dt ];
    try discriminate He.
  8: {
    simpl in Hw.
    assert (Hnone : List.filter (fun d => (d <=? now w + dt)%N) (timers w) = []
                    /\ List.filter (fun d => negb (d <=? now w + dt)%N) (timers w)
                       = timers w).
    { induction Hw as [ | d r Hd _ IHr ]; simpl; [split; reflexivity | ].
      destruct IHr as [-> ->].
      destruct (N.leb_spec d (now w + dt)); [lia | split; reflexivity]. }
    destruct Hnone as [Hdue Hrest].
    apply IH; [exact Hes | | ]; cbn [handle elapse ui timers now].
    - rewrite Hdue. exact Hup.
    - rewrite Hrest. eapply List.Forall_impl; [ | exact Hw ].
      intros d Hd. cbv beta in Hd. lia. }
  all: match goal with
       | |- context [handle toLowerCase normalizeNFD ?w0 ?e0] =>
           destruct (handle_keeps_clock w0 e0 eq_refl) as (Hf & Ht & Hn);
           [ intros dt; discriminate | ]
       end;
    (apply IH; [exact Hes | rewrite Hf; exact Hup | rewrite Ht, Hn; exact Hw]).
Qed.

(** C9, as the code has it.  A copy action, on either clipboard path, raises
    the acknowledgment flag, schedules one reset 2500 ms ahead and leaves the
    children of the document body as they were.  Whatever the user does next
    short of copying again, the flag is down once 2500 ms have passed; and it
    stays up until then provided no reset scheduled by an earlier copy action
    falls due in between (timers are never cancelled, so an earlier action's
    reset can lower the flag sooner). *)
Theorem copy_acknowledgment (w : World) (clipboard_ok : bool) :
  let w' := handleCopyCommand clipboard_ok w in
  isCopied (ui w') = true
  /\ timers w' = timers w ++ [(now w + 2500)%N]
  /\ body w' = body w
  /\ (forall es,
        forallb (fun e => negb (is_copy e)) es = true ->
        (2500 <= elapsed es)%N ->
        isCopied (ui (run' w' es)) = false)
  /\ (forall es,
        forallb (fun e => negb (is_copy e)) es = true ->
        (elapsed es < 2500)%N ->
        Forall (fun d => (now w + elapsed es < d)%N) (timers w) ->
        isCopied (ui (run' w' es)) = true).
Proof.
  intros w'. subst w'.
  split; [reflexivity | ]. split; [reflexivity | ].
  split; [apply copy_keeps_body | ]. split.
  - intros es Hes Ht. apply flag_down_after; [exact Hes | ].
    right. exists (now w + copied_delay)%N. split.
    + cbn [handleCopyCommand timers]. apply in_or_app. right. left. reflexivity.
    + cbn [handleCopyCommand now]. unfold copied_delay. lia.
  - intros es Hes Ht Hpending. apply flag_up_until; [exact Hes | reflexivity | ].
    cbn [handleCopyCommand timers now]. apply Forall_app. split; [exact Hpending | ].
    constructor; [unfold copied_delay; lia | constructor].
Qed.

Hypothesis runtime : conforming toLowerCase normalizeNFD.

(** C10. In every state the wizard can reach from its first render, the
    slug field is a fixed point of [toSlug] and is made of lowercase ASCII
    letters, digits and hyphens only: both the automatic derivation and a
    direct edit store [toSlug] of what was typed, never the typed string
    itself. *)
Theorem slug_field_fixed_point (user stored : option obj)
    (children : list nat) (es : list Event) :
  let w := run' (initialWorld user stored children) es in
  toSlug' (workspaceSlug (ui w)) = workspaceSlug (ui w)
  /\ forallb slug_char (workspaceSlug (ui w)) = true
  /\ (forall v, workspaceSlug (ui (handle' w (SlugChange v))) = toSlug' v).
Proof.
  intros w.
  assert (H : forallb slug_char (workspaceSlug (ui w)) = true).
  { apply run_keeps_slug_chars. reflexivity. }
  split; [ | split; [exact H | reflexivity] ].
  apply toSlug_fixes_slugs; assumption.
Qed.

End WizardFacts.

Lemma create_failure_keeps_draft_witness :
  let w := handle Latin1.toLowerCase Latin1.normalizeNFD
             (with_ui (setStep form) (initialWorld None None []))
             (NameChange (lit "Pelada de Sexta")) in
  let taken := lit "nome j" ++ 225%N :: lit " em uso" in
  let err := {| response_message := Some taken;
                message := Some (lit "Request failed with status code 409") |} in
  let w' := handle Latin1.toLowerCase Latin1.normalizeNFD w
              (CreateWorkspace (inl err)) in
  let silent := {| response_message := None; message := None |} in
  truthy (trim (workspaceName (ui w))) = true
  /\ step (ui w') = form
  /\ error (ui w') = Some taken
  /\ workspaceName (ui w') = lit "Pelada de Sexta"
  /\ workspaceSlug (ui w') = lit "pelada-de-sexta"
  /\ error (ui (handle Latin1.toLowerCase Latin1.normalizeNFD w
                  (CreateWorkspace (inl silent))))
     = Some (lit "Ocorreu um erro ao criar o workspace. Tente novamente.").
Proof.
  intros w taken err w' silent.
  assert (Hcall : truthy (trim (workspaceName (ui w))) = true) by reflexivity.
  pose proof (create_failure_keeps_draft Latin1.toLowerCase Latin1.normalizeNFD
                w err Hcall) as (Hstep & _ & Hmsg & _ & _ & _ & Hname & Hslug & _).
  pose proof (create_failure_keeps_draft Latin1.toLowerCase Latin1.normalizeNFD
                w silent Hcall) as (_ & _ & _ & _ & Hfix & _).
  split; [exact Hcall | ].
  split; [exact Hstep | ].
  split; [apply Hmsg; [reflexivity | discriminate] | ].
  split; [exact Hname | ].
  split; [etransitivity; [exact Hslug | vm_compute; reflexivity] | ].
  apply Hfix; left; reflexivity.
Defined.

(** C6 as stated fails: a rejection without a server message but with a
    message of its own -- a network failure -- shows that message, not the
    generic sentence. *)
Lemma create_failure_network_counterexample :
  let w := with_ui (setWorkspaceName (lit "Pelada"))
             (with_ui (setStep form) (initialWorld None None [])) in
  let err := {| response_message := None;
                message := Some (lit "Network Error") |} in
  let generic := lit "Ocorreu um erro ao criar o workspace. Tente novamente." in
  fallback_create = generic
  /\ error (ui (handleCreateWorkspace (inl err) w)) = Some (lit "Network Error")
  /\ error (ui (handleCreateWorkspace (inl err) w)) <> Some generic.
Proof.
  intros w err generic.
  split; [reflexivity | ].
  split; [reflexivity | ].
  vm_compute. discriminate.
Qed.

Lemma slug_field_fixed_point_witness :
  let es := [ NameChange (lit "S" ++ 227%N :: lit "o Paulo FC");
              SlugChange (lit "Meu Slug!");
              NameChange (lit "Outro nome") ] in
  let w := run Latin1.toLowerCase Latin1.normalizeNFD
             (initialWorld None None []) es in
  conforming Latin1.toLowerCase Latin1.normalizeNFD
  /\ toSlug Latin1.toLowerCase Latin1.normalizeNFD (workspaceSlug (ui w))
     = workspaceSlug (ui w)
  /\ forallb slug_char (workspaceSlug (ui w)) = true.
Proof.
  intros es w.
  assert (Hr : conforming Latin1.toLowerCase Latin1.normalizeNFD)
    by (split; intros s _; reflexivity).
  split; [exact Hr | ].
  destruct (slug_field_fixed_point Latin1.toLowerCase Latin1.normalizeNFD Hr
              None None [] es) as (Hfix & Hchars & _).
  split; [exact Hfix | exact Hchars].
Defined.

(** ** Slug derivation *)

(** C4. On every conforming runtime [toSlug] is idempotent; the two examples
    of the specification evaluate as stated; and on Latin-1 input an accented
    letter gives the same slug as its base letter. *)
Theorem toSlug_idempotent (toLowerCase normalizeNFD : jsstring -> jsstring)
    (runtime : conforming toLowerCase normalizeNFD) :
  (forall s, toSlug toLowerCase normalizeNFD (toSlug toLowerCase normalizeNFD s)
             = toSlug toLowerCase normalizeNFD s)
  /\ toSlug toLowerCase normalizeNFD (lit "Pelada da Sexta!")
     = lit "pelada-da-sexta"
  /\ toSlug toLowerCase normalizeNFD (lit "S" ++ 227%N :: lit "o Paulo FC")
     = lit "sao-paulo-fc"
  /\ (forall s, Forall Latin1.latin1 s ->
                toSlug toLowerCase normalizeNFD (List.map base_letter s)
                = toSlug toLowerCase normalizeNFD s).
Proof.
  split; [ | split; [ | split ] ].
  - intros s. apply toSlug_twice, runtime.
  - rewrite (toSlug_on_latin1 _ _ runtime) by (apply forallb_latin1; reflexivity).
    vm_compute. reflexivity.
  - rewrite (toSlug_on_latin1 _ _ runtime) by (apply forallb_latin1; reflexivity).
    vm_compute. reflexivity.
  - intros s. apply toSlug_base_letters, runtime.
Qed.

Lemma toSlug_idempotent_witness :
  conforming Latin1.toLowerCase Latin1.normalizeNFD
  /\ toSlug Latin1.toLowerCase Latin1.normalizeNFD
       (toSlug Latin1.toLowerCase Latin1.normalizeNFD (lit "  FC  Sexta-Feira!! "))
     = toSlug Latin1.toLowerCase Latin1.normalizeNFD (lit "  FC  Sexta-Feira!! ").
Proof.
  assert (Hr : conforming Latin1.toLowerCase Latin1.normalizeNFD)
    by (split; intros s _; reflexivity).
  split; [exact Hr | ].
  exact (proj1 (toSlug_idempotent Latin1.toLowerCase Latin1.normalizeNFD Hr)
           (lit "  FC  Sexta-Feira!! ")).
Defined.

(** C3, as the code has it.  On every input string, and every runtime,
    [toSlug] is the amended derivation [slugify_amended]: lowercase, strip
    the diacritics, delete every character that is then not a lowercase
    ASCII letter, a digit, whitespace or a hyphen -- it is deleted, not
    replaced by a hyphen -- and join the words that are left by single
    hyphens (trim, then one hyphen for each whitespace run).  Its result is
    made of lowercase ASCII letters, digits and hyphens.  On a runtime that
    follows the Unicode tables and Latin-1 text this gives: a letter yields
    the slug of its lowercase, and of its base letter; an ASCII character
    that is not a letter, a digit, whitespace or a hyphen can be dropped from
    the input without changing the slug; two words between whitespace are
    joined by one hyphen. *)
Theorem toSlug_transformation
    (toLowerCase normalizeNFD : jsstring -> jsstring)
    (runtime : conforming toLowerCase normalizeNFD) :
  (forall s, toSlug toLowerCase normalizeNFD s
             = slugify_amended toLowerCase normalizeNFD s)
  /\ (forall s, Forall Latin1.latin1 s ->
     toSlug toLowerCase normalizeNFD (List.map Latin1.lower1 s)
     = toSlug toLowerCase normalizeNFD s
     /\ toSlug toLowerCase normalizeNFD (List.map base_letter s)
        = toSlug toLowerCase normalizeNFD s)
  /\ (forall x c y,
        Forall Latin1.latin1 x -> Forall Latin1.latin1 y ->
        (c < 128)%N -> is_ascii_alnum c = false ->
        is_whitespace c = false -> c <> 45%N ->
        toSlug toLowerCase normalizeNFD (x ++ c :: y)
        = toSlug toLowerCase normalizeNFD (x ++ y))
  /\ (forall h t r u k,
        forallb is_latin1_whitespace h = true ->
        forallb is_latin1_whitespace r = true ->
        forallb is_latin1_whitespace k = true ->
        forallb slug_char t = true -> forallb slug_char u = true ->
        t <> [] -> r <> [] -> u <> [] ->
        toSlug toLowerCase normalizeNFD (h ++ t ++ r ++ u ++ k)
        = t ++ lit "-" ++ u)
  /\ (forall s, forallb slug_char (toSlug toLowerCase normalizeNFD s) = true).
Proof.
  split; [ | split; [ | split; [ | split ] ] ].
  - intros s. apply toSlug_is_amended.
  - intros s Hs. split.
    + apply toSlug_lowercased; assumption.
    + apply toSlug_base_letters; assumption.
  - intros x c y Hx Hy Hascii Halnum Hspace Hhyphen.
    apply toSlug_drop_unit; try assumption.
    + unfold Latin1.latin1. lia.
    + apply punctuation_contribution; assumption.
  - intros h t r u k. apply toSlug_words, runtime.
  - apply toSlug_slug_chars.
Qed.

Lemma toSlug_transformation_witness :
  conforming Latin1.toLowerCase Latin1.normalizeNFD
  /\ toSlug Latin1.toLowerCase Latin1.normalizeNFD (lit "a" ++ 46%N :: lit "b")
     = toSlug Latin1.toLowerCase Latin1.normalizeNFD (lit "a" ++ lit "b")
  /\ toSlug Latin1.toLowerCase Latin1.normalizeNFD
       (lit " " ++ lit "fc" ++ lit "   " ++ lit "sexta" ++ lit "  ")
     = lit "fc" ++ lit "-" ++ lit "sexta"
  /\ toSlug Latin1.toLowerCase Latin1.normalizeNFD
       (lit " Pelada, da  Sexta  (FC)! ")
     = lit "pelada-da-sexta-fc".
Proof.
  assert (Hr : conforming Latin1.toLowerCase Latin1.normalizeNFD)
    by (split; intros s _; reflexivity).
  pose proof (toSlug_transformation _ _ Hr) as (Heq & _ & Hdel & Hwords & _).
  split; [exact Hr | split; [ | split ] ].
  - apply (Hdel (lit "a") 46%N (lit "b")).
    + repeat constructor.
    + repeat constructor.
    + lia.
    + reflexivity.
    + reflexivity.
    + lia.
  - apply (Hwords (lit " ") (lit "fc") (lit "   ") (lit "sexta") (lit "  "));
      first [reflexivity | discriminate].
  - rewrite Heq. vm_compute. reflexivity.
Defined.

(** C3 as stated fails: a period between two letters is deleted, and the
    slug has no hyphen at all. *)
Lemma toSlug_period_counterexample :
  toSlug Latin1.toLowerCase Latin1.normalizeNFD (lit "a.b") = lit "ab"
  /\ toSlug Latin1.toLowerCase Latin1.normalizeNFD (lit "a.b") <> lit "a-b"
  /\ ~ In 45%N (toSlug Latin1.toLowerCase Latin1.normalizeNFD (lit "a.b")).
Proof.
  split; [vm_compute; reflexivity | ].
  split; [vm_compute; discriminate | ].
  vm_compute. intros [H | [H | []]]; discriminate H.
Qed.


(** ** Initial step *)

Lemma has_real_name_spec (u : obj) :
  has_real_name (Some u) = false
  <-> user_name u = None
      \/ exists n, user_name u = Some n
                   /\ (trim n = [] \/ phone_shape phone_tail (trim n) = true).
Proof.
  unfold has_real_name, looksLikePhone.
  destruct (user_name u) as [ n | ].
  - rewrite phone_pattern_shape, andb_false_iff, negb_false_iff. split.
    + intros [H | H]; right; exists n; split; auto.
      left. destruct (trim n); [reflexivity | discriminate].
    + intros [H | (n' & Hn & [H | H])]; [discriminate | | ];
        injection Hn as <-; [right; rewrite H; reflexivity | left; exact H].
  - rewrite andb_false_r. split; auto.
Qed.

Lemma initial_step_cases (user stored : option obj) (children : list nat) :
  step (ui (initEffect (initialWorld user stored children)))
  = if has_real_name user then form else profile.
Proof. unfold initEffect. simpl. destruct (has_real_name user); reflexivity. Qed.

(** C5, as the code has it.  After the init effect the wizard is on the
    profile step exactly when the identity's name is missing, blank after
    trimming, or of the phone shape -- an optional [+], a digit, then six or
    more units that are digits, whitespace of any kind (the class [\s], not
    the space alone), hyphens, parentheses or periods; otherwise it is on the
    form step.  The examples of the specification classify as stated. *)
Theorem initial_step_selection (u : obj) (stored : option obj)
    (children : list nat) :
  let s := step (ui (initEffect (initialWorld (Some u) stored children))) in
  (s = profile
   <-> user_name u = None
       \/ exists n, user_name u = Some n
                    /\ (trim n = [] \/ phone_shape phone_tail (trim n) = true))
  /\ (s <> profile -> s = form)
  /\ (user_name u = Some (lit "+55 11 91234-5678") -> s = profile)
  /\ (user_name u = Some (lit "11991234567") -> s = profile)
  /\ (user_name u = Some (lit "Maria Silva") -> s = form).
Proof.
  intros s. subst s. rewrite initial_step_cases.
  split; [ | split; [ | split; [ | split ] ] ].
  - rewrite <- has_real_name_spec.
    destruct (has_real_name (Some u)); split; congruence.
  - destruct (has_real_name (Some u)); congruence.
  - intros Hn. unfold has_real_name. rewrite Hn. reflexivity.
  - intros Hn. unfold has_real_name. rewrite Hn. reflexivity.
  - intros Hn. unfold has_real_name. rewrite Hn. reflexivity.
Qed.

Lemma initial_step_selection_witness :
  let u : obj := {[ "name" := JStr (lit "Maria Silva") ]} in
  user_name u = Some (lit "Maria Silva")
  /\ step (ui (initEffect (initialWorld (Some u) None []))) = form.
Proof.
  intros u.
  assert (Hn : user_name u = Some (lit "Maria Silva")).
  { unfold user_name, u. rewrite lookup_singleton_eq. reflexivity. }
  split; [exact Hn | ].
  exact (proj2 (proj2 (proj2 (proj2 (initial_step_selection u None []))))
           Hn).
Defined.

(** C5 as stated fails: the name "1<TAB>234567" is present, not blank and
    not of the shape with the space alone, yet the wizard asks for the
    profile step, since the pattern's [\s] takes the tab. *)
Lemma initial_step_tab_counterexample :
  let n := [49; 9; 50; 51; 52; 53; 54; 55]%N in
  let u : obj := {[ "name" := JStr n ]} in
  step (ui (initEffect (initialWorld (Some u) None []))) = profile
  /\ user_name u = Some n
  /\ trim n <> []
  /\ phone_shape spec_phone_tail (trim n) = false.
Proof.
  intros n u.
  assert (Hn : user_name u = Some n).
  { unfold user_name, u. rewrite lookup_singleton_eq. reflexivity. }
  split; [ | split; [exact Hn | split; [discriminate | reflexivity] ] ].
  rewrite initial_step_cases. unfold has_real_name. rewrite Hn. reflexivity.
Qed.

(** ** Saving the display name *)

Lemma merge_profile_name stored updatedProfile typed :
  merge_profile stored updatedProfile typed !! "name" = Some (JStr (trim typed)).
Proof. unfold merge_profile. apply lookup_insert_eq. Qed.

Lemma merge_profile_other stored updatedProfile typed (k : string) :
  k <> "name" ->
  merge_profile stored updatedProfile typed !! k
  = match default ∅ updatedProfile !! k with
    | Some v => Some v
    | None => default ∅ stored !! k
    end.
Proof.
  intros Hk. unfold merge_profile.
  rewrite lookup_insert_ne by congruence. rewrite lookup_union.
  destruct (default ∅ updatedProfile !! k), (default ∅ stored !! k); reflexivity.
Qed.

Lemma save_name_published (w : World) (updatedProfile : option obj) :
  truthy (trim (displayName (ui w))) = true ->
  let w' := handleSaveName (inr updatedProfile) w in
  let merged :=
    merge_profile (storedUser w) updatedProfile (displayName (ui w)) in
  authUser w' = Some merged /\ storedUser w' = Some merged
  /\ step (ui w') = form /\ isSubmitting (ui w') = false
  /\ displayName (ui w') = displayName (ui w).
Proof.
  intros Hcall. unfold handleSaveName. rewrite Hcall. cbn [negb].
  unfold initEffect. cbn [authUser publishUser with_ui].
  match goal with |- context [if ?b then _ else _] => destruct b end;
    repeat split; reflexivity.
Qed.

(** C7, as the code has it.  When the profile call succeeds (the handler got
    past its blank-name guard), one merged object is both written to the
    cache and published to the auth context.  Its [name] is the typed
    display name with the whitespace at both ends trimmed off (not the typed
    string itself when that has such whitespace); every other field is the
    server's when the response has it and the cached one otherwise.  The
    wizard moves to the form step. *)
Theorem save_name_publishes_merged (w : World) (updatedProfile : option obj)
    (Hcall : truthy (trim (displayName (ui w))) = true) :
  let w' := handleSaveName (inr updatedProfile) w in
  exists merged : obj,
    authUser w' = Some merged
    /\ storedUser w' = Some merged
    /\ merged !! "name" = Some (JStr (trim (displayName (ui w))))
    /\ (forall k : string, k <> "name" ->
          merged !! k
          = match default ∅ updatedProfile !! k with
            | Some v => Some v
            | None => default ∅ (storedUser w) !! k
            end)
    /\ step (ui w') = form.
Proof.
  intros w'.
  destruct (save_name_published w updatedProfile Hcall)
    as (Ha & Hs & Hstep & _).
  eexists. split; [exact Ha | ]. split; [exact Hs | ].
  split; [apply merge_profile_name | ].
  split; [ | exact Hstep ].
  intros k Hk. apply merge_profile_other, Hk.
Qed.

Lemma save_name_publishes_merged_witness :
  let w := with_ui (setDisplayName (lit " Carlos Souza "))
             (initialWorld None
                (Some {[ "name" := JStr (lit "5511988887777");
                         "role" := JStr (lit "user") ]}) []) in
  truthy (trim (displayName (ui w))) = true
  /\ exists merged : obj,
       authUser (handleSaveName (inr (Some {[ "id" := JStr (lit "u1") ]})) w)
       = Some merged
       /\ merged !! "name" = Some (JStr (lit "Carlos Souza")).
Proof.
  intros w.
  assert (Hcall : truthy (trim (displayName (ui w))) = true) by reflexivity.
  split; [exact Hcall | ].
  destruct (save_name_publishes_merged w (Some {[ "id" := JStr (lit "u1") ]}) Hcall)
    as (merged & Ha & _ & Hn & _).
  exists merged. split; [exact Ha | exact Hn].
Defined.

(** C7 as stated fails: with " Ana " typed into the input, the published
    name is "Ana", not the typed string. *)
Lemma save_name_trim_counterexample :
  let typed := lit " Ana " in
  let w := with_ui (setDisplayName typed) (initialWorld None None []) in
  exists merged : obj,
    authUser (handleSaveName (inr None) w) = Some merged
    /\ merged !! "name" = Some (JStr (lit "Ana"))
    /\ merged !! "name" <> Some (JStr typed).
Proof.
  intros typed w.
  destruct (save_name_published w None eq_refl) as (Ha & _).
  eexists. split; [exact Ha | ].
  rewrite merge_profile_name. split; [reflexivity | discriminate].
Qed.

(** ** Unwrapping the creation response *)

(** C8, as the code has it.  For a response body other than [null]: when the
    body is an object whose [data] property is neither missing nor [null],
    the provisioner returns that property -- so an envelope yields the inner
    workspace -- and in every other case it returns the body unchanged -- so
    a bare workspace is returned as it is provided it has no [data] field of
    its own (or a [null] one).  A rejection is passed on. *)
Theorem createWorkspace_unwraps (data : jsval) (Hbody : data <> JNull) :
  (forall (m : obj) (inner : jsval),
      data = JObj m -> m !! "data" = Some inner -> inner <> JNull ->
      createWorkspace (inr data) = inr inner)
  /\ ((forall (m : obj) (inner : jsval),
          data = JObj m -> m !! "data" = Some inner -> inner = JNull) ->
      createWorkspace (inr data) = inr data)
  /\ (forall err, createWorkspace (inl err) = inl err).
Proof.
  split; [ | split ].
  - intros m inner -> Hm Hi. simpl. rewrite Hm.
    destruct inner; congruence.
  - intros H. destruct data as [ | b | n | s | l | m ]; try reflexivity.
    + congruence.
    + simpl. destruct (m !! "data") as [ inner | ] eqn:Hm; [ | reflexivity ].
      rewrite (H m inner eq_refl Hm). reflexivity.
  - reflexivity.
Qed.

Lemma createWorkspace_unwraps_witness :
  let ws : jsval := JObj {[ "id" := JStr (lit "w1");
                            "slug" := JStr (lit "pelada-de-sabado") ]} in
  let envelope : jsval := JObj {[ "data" := ws ]} in
  envelope <> JNull
  /\ createWorkspace (inr envelope) = inr ws.
Proof.
  intros ws envelope.
  assert (Hbody : envelope <> JNull) by discriminate.
  split; [exact Hbody | ].
  refine (proj1 (createWorkspace_unwraps envelope Hbody)
            {[ "data" := ws ]} ws eq_refl _ _).
  - apply lookup_singleton_eq.
  - discriminate.
Defined.

(** C8 as stated fails: the index signature of [CreatedWorkspace] admits a
    field called [data]; a bare workspace that has one is not returned
    unchanged, its [data] field is returned instead. *)
Lemma createWorkspace_bare_counterexample :
  let extra : jsval := JObj {[ "plan" := JStr (lit "free") ]} in
  let bare : jsval :=
    JObj (<["data" := extra]>
            (<["id" := JStr (lit "w1")]>
               (<["name" := JStr (lit "Pelada")]>
                  (<["slug" := JStr (lit "pelada")]>
                     {[ "role" := JStr (lit "owner") ]})))) in
  is_workspace bare = true
  /\ createWorkspace (inr bare) = inr extra
  /\ createWorkspace (inr bare) <> inr bare.
Proof.
  intros extra bare.
  assert (Hd : createWorkspace (inr bare) = inr extra).
  { unfold bare, createWorkspace, get_data. rewrite lookup_insert_eq.
    reflexivity. }
  assert (Hw : is_workspace bare = true).
  { unfold bare, is_workspace, is_string_field.
    repeat (rewrite ?lookup_insert_eq, ?lookup_singleton_eq;
            try rewrite lookup_insert_ne by discriminate).
    reflexivity. }
  assert (He : is_workspace extra = false).
  { unfold extra, is_workspace, is_string_field.
    rewrite lookup_singleton_ne by discriminate. reflexivity. }
  split; [exact Hw | split; [exact Hd | ] ].
  rewrite Hd. intros H.
  apply (f_equal (fun r : jserror + jsval =>
                    match r with inr v => is_workspace v | inl _ => false end))
    in H.
  change (is_workspace extra = is_workspace bare) in H. congruence.
Qed.


(** ** Copying the command *)

Lemma copy_acknowledgment_witness :
  let w := initialWorld None None [7; 3] in
  let w' := handleCopyCommand false w in
  let typing := [ Elapse 1000; NameChange (lit "x"); Elapse 1499 ] in
  forallb (fun e => negb (is_copy e)) typing = true
  /\ (elapsed typing < 2500)%N
  /\ Forall (fun d => (now w + elapsed typing < d)%N) (timers w)
  /\ isCopied (ui (run Latin1.toLowerCase Latin1.normalizeNFD w' typing)) = true
  /\ isCopied (ui (run Latin1.toLowerCase Latin1.normalizeNFD w'
                     (typing ++ [Elapse 1]))) = false
  /\ body w' = [7; 3].
Proof.
  intros w w' typing.
  assert (Hes : forallb (fun e => negb (is_copy e)) typing = true)
    by reflexivity.
  assert (Hdt : (elapsed typing < 2500)%N) by (vm_compute; reflexivity).
  assert (Hp : Forall (fun d => (now w + elapsed typing < d)%N) (timers w))
    by constructor.
  pose proof (copy_acknowledgment Latin1.toLowerCase Latin1.normalizeNFD w false)
    as (_ & _ & Hb & Hdown & Hup).
  split; [exact Hes | ]. split; [exact Hdt | ]. split; [exact Hp | ].
  split; [exact (Hup typing Hes Hdt Hp) | ].
  split; [ | exact Hb ].
  apply Hdown; [reflexivity | vm_compute; discriminate].
Defined.

(** C9 as stated fails: copy, wait 2000 ms, copy again.  The second action
    raises the flag, and 500 ms later the first action's timer lowers it. *)
Lemma copy_twice_counterexample :
  let w1 := handleCopyCommand true (initialWorld None None []) in
  let w2 := handleCopyCommand true (elapse 2000 w1) in
  isCopied (ui w2) = true
  /\ isCopied (ui (elapse 499 w2)) = true
  /\ isCopied (ui (elapse 500 w2)) = false.
Proof. repeat split; reflexivity. Qed.

(** * Further properties of the code *)

(** ** [trim] *)

Lemma trimStart_all_whitespace s :
  forallb is_whitespace s = true -> trimStart s = [].
Proof.
  induction s as [ | c s IH ]; simpl; [reflexivity | ].
  intros H. apply andb_true_iff in H as [Hc Hs]. rewrite Hc. apply IH, Hs.
Qed.

Lemma trim_all_whitespace s : forallb is_whitespace s = true -> trim s = [].
Proof.
  intros H. unfold trim. rewrite trimStart_all_whitespace by exact H.
  reflexivity.
Qed.

Lemma trimStart_twice s : trimStart (trimStart s) = trimStart s.
Proof.
  destruct (trimStart s) as [ | c r ] eqn:E; [reflexivity | ].
  apply trimStart_fixed. exact (trimStart_head s c r E).
Qed.

Lemma trimEnd_twice s : trimEnd (trimEnd s) = trimEnd s.
Proof. unfold trimEnd. rewrite rev_involutive, trimStart_twice. reflexivity. Qed.

Lemma trim_twice s : trim (trim s) = trim s.
Proof.
  unfold trim. destruct (trimStart s) as [ | c r ] eqn:E; [reflexivity | ].
  pose proof (trimStart_head s c r E) as Hc.
  destruct (trimEnd_keeps_head c r Hc) as (r' & Hr).
  rewrite Hr at 1. rewrite trimStart_fixed by exact Hc.
  rewrite <- Hr. apply trimEnd_twice.
Qed.

Lemma trimStart_splits s :
  exists p, s = p ++ trimStart s /\ forallb is_whitespace p = true.
Proof.
  induction s as [ | c s (p & Hs & Hp) ]; simpl.
  - exists []. split; reflexivity.
  - destruct (is_whitespace c) eqn:Ec.
    + exists (c :: p). simpl. rewrite Ec, Hp. split; [f_equal; exact Hs | reflexivity].
    + exists []. split; reflexivity.
Qed.

Lemma trim_surrounded h s k :
  forallb is_whitespace h = true -> forallb is_whitespace k = true ->
  trim (h ++ s ++ k) = trim s.
Proof.
  intros Hh Hk. unfold trim. rewrite trimStart_app_whitespace by exact Hh.
  destruct (trimStart_splits s) as (p & Hs & Hp).
  destruct (trimStart s) as [ | c r ] eqn:E.
  - rewrite app_nil_r in Hs. subst p.
    rewrite trimStart_all_whitespace; [reflexivity | ].
    rewrite forallb_app, Hp, Hk. reflexivity.
  - rewrite Hs at 1. rewrite <- app_assoc.
    rewrite trimStart_app_whitespace by exact Hp.
    change ((c :: r) ++ k) with (c :: r ++ k).
    rewrite trimStart_fixed by exact (trimStart_head s c r E).
    change (c :: r ++ k) with ((c :: r) ++ k).
    apply trimEnd_app_whitespace, Hk.
Qed.

(** ** The phone-placeholder test *)

Lemma phone_shape_units s :
  phone_shape phone_tail s = true ->
  7 <= length s /\ forall c, In c s -> phone_tail c = true \/ c = 43%N.
Proof.
  unfold phone_shape, strip_plus.
  destruct s as [ | c r ]; [discriminate | ].
  assert (Hdigit : forall d, is_digit d = true -> phone_tail d = true).
  { intros d Hd. unfold phone_tail. rewrite Hd. reflexivity. }
  assert (Hbody : forall t,
            match t with
            | d :: rest =>
                is_digit d && (6 <=? length rest) && forallb phone_tail rest
            | [] => false
            end = true ->
            exists d rest, t = d :: rest /\ is_digit d = true
                           /\ 6 <= length rest
                           /\ forallb phone_tail rest = true).
  { intros [ | d rest ]; [discriminate | ].
    rewrite !andb_true_iff, Nat.leb_le. intros [[Hd Hn] Hr].
    exists d, rest. auto. }
  destruct (c =? 43)%N eqn:E43; intros H;
    [ destruct (Hbody r H) as (d & rest & Ht & Hd & Hn & Hr)
    | destruct (Hbody (c :: r) H) as (d & rest & Ht & Hd & Hn & Hr) ].
  - apply N.eqb_eq in E43. subst c r. simpl. split; [lia | ].
    intros x [<- | [<- | Hx]]; [right; reflexivity | | ].
    + left. apply Hdigit, Hd.
    + left. rewrite forallb_forall in Hr. apply Hr, Hx.
  - injection Ht as <- <-. simpl. split; [lia | ].
    intros x [<- | Hx].
    + left. apply Hdigit, Hd.
    + left. rewrite forallb_forall in Hr. apply Hr, Hx.
Qed.

Lemma looksLikePhone_trimmed s :
  looksLikePhone (Some (trim s)) = looksLikePhone (Some s).
Proof. unfold looksLikePhone. rewrite trim_twice. reflexivity. Qed.

(** X1. A name that [looksLikePhone] accepts has, once trimmed, at least
    seven units, all of them digits, whitespace, hyphens, parentheses,
    periods or plus signs, and none of them a letter.  So a name with a
    letter in it, or shorter than seven characters, is never taken for a
    placeholder. *)
Theorem looksLikePhone_necessary (s : jsstring)
    (Hphone : looksLikePhone (Some s) = true) :
  7 <= length (trim s)
  /\ (forall c, In c (trim s) -> phone_tail c = true \/ c = 43%N)
  /\ (forall c, In c (trim s) -> is_ascii_letter c = false).
Proof.
  unfold looksLikePhone in Hphone. rewrite phone_pattern_shape in Hphone.
  destruct (phone_shape_units _ Hphone) as [Hlen Hunits].
  split; [exact Hlen | split; [exact Hunits | ] ].
  intros c Hc. destruct (Hunits c Hc) as [Ht | ->]; [ | reflexivity ].
  revert Ht. unfold phone_tail, is_ascii_letter. unfold_classes. char_cases.
Qed.

Lemma looksLikePhone_necessary_witness :
  looksLikePhone (Some (lit " +55 11 91234-5678 ")) = true
  /\ 7 <= length (trim (lit " +55 11 91234-5678 ")).
Proof.
  assert (H : looksLikePhone (Some (lit " +55 11 91234-5678 ")) = true).
  { vm_compute. reflexivity. }
  split; [exact H | ].
  exact (proj1 (looksLikePhone_necessary (lit " +55 11 91234-5678 ") H)).
Defined.

(** X2. An identity whose name has an ASCII letter in it, whatever else the
    name holds, passes the condition of the init effect: the wizard opens on
    the form step. *)
Theorem name_with_letter_is_real (u : obj) (s : jsstring) (c : N)
    (stored : option obj) (children : list nat)
    (Hname : user_name u = Some s)
    (Hin : In c (trim s))
    (Hletter : is_ascii_letter c = true) :
  has_real_name (Some u) = true
  /\ step (ui (initEffect (initialWorld (Some u) stored children))) = form.
Proof.
  assert (H : has_real_name (Some u) = true).
  { unfold has_real_name. rewrite Hname.
    destruct (looksLikePhone (Some s)) eqn:Ep.
    - destruct (looksLikePhone_necessary s Ep) as (_ & _ & Hno).
      rewrite (Hno c Hin) in Hletter. discriminate.
    - destruct (trim s); [destruct Hin | reflexivity]. }
  split; [exact H | ].
  unfold initEffect. cbn [authUser initialWorld]. rewrite H. reflexivity.
Qed.

Lemma name_with_letter_is_real_witness :
  let s := lit "Joao 2" in
  let u : obj := {[ "name" := JStr s ]} in
  user_name u = Some s /\ In 97%N (trim s) /\ is_ascii_letter 97 = true
  /\ has_real_name (Some u) = true.
Proof.
  intros s u.
  assert (Hn : user_name u = Some s).
  { unfold user_name, u. rewrite lookup_singleton_eq. reflexivity. }
  assert (Hin : In 97%N (trim s)) by (vm_compute; tauto).
  assert (Hl : is_ascii_letter 97 = true) by reflexivity.
  split; [exact Hn | split; [exact Hin | split; [exact Hl | ] ] ].
  exact (proj1 (name_with_letter_is_real u s 97%N None [] Hn Hin Hl)).
Defined.

(** X3. Whitespace around the stored name does not count: an identity whose
    name is [s] with whitespace before and after it is classified as the
    identity whose name is [s]. *)
Theorem has_real_name_ignores_padding (u u' : obj) (h s k : jsstring)
    (Hh : forallb is_whitespace h = true)
    (Hk : forallb is_whitespace k = true)
    (Hname : user_name u = Some (h ++ s ++ k))
    (Hname' : user_name u' = Some s) :
  has_real_name (Some u) = has_real_name (Some u').
Proof.
  unfold has_real_name, looksLikePhone. rewrite Hname, Hname'.
  rewrite (trim_surrounded h s k Hh Hk). reflexivity.
Qed.

Lemma has_real_name_ignores_padding_witness :
  let s := lit "11991234567" in
  let h := [9; 32]%N in
  let k := [160; 10]%N in
  let u : obj := {[ "name" := JStr (h ++ s ++ k) ]} in
  let u' : obj := {[ "name" := JStr s ]} in
  forallb is_whitespace h = true /\ forallb is_whitespace k = true
  /\ user_name u = Some (h ++ s ++ k) /\ user_name u' = Some s
  /\ has_real_name (Some u) = has_real_name (Some u').
Proof.
  intros s h k u u'.
  assert (Hh : forallb is_whitespace h = true) by reflexivity.
  assert (Hk : forallb is_whitespace k = true) by reflexivity.
  assert (Hn : user_name u = Some (h ++ s ++ k)).
  { unfold user_name, u. rewrite lookup_singleton_eq. reflexivity. }
  assert (Hn' : user_name u' = Some s).
  { unfold user_name, u'. rewrite lookup_singleton_eq. reflexivity. }
  repeat (split; [assumption | ]).
  exact (has_real_name_ignores_padding u u' h s k Hh Hk Hn Hn').
Defined.

(** ** Failures, blank input and retries *)

Lemma or_else_nonempty a b : b <> [] -> or_else a b <> [].
Proof.
  intros Hb. unfold or_else. destruct a as [ [ | c r ] | ]; simpl; congruence.
Qed.

Lemma error_text_nonempty err fallback :
  fallback <> [] -> error_text err fallback <> [].
Proof. intros H. unfold error_text. apply or_else_nonempty, or_else_nonempty, H. Qed.

(** X4. When saving the display name fails (the handler got past its
    blank-name guard), a non-empty error text is set -- the server's message
    when it sent a non-empty one -- and nothing else moves: the step, the
    typed name, the cached user and the published user are as before, and
    the submitting flag is down again. *)
Theorem save_failure_keeps_profile (w : World) (err : jserror)
    (Hcall : truthy (trim (displayName (ui w))) = true) :
  let w' := handleSaveName (inl err) w in
  (exists m, error (ui w') = Some m /\ m <> []
             /\ (forall sm, response_message err = Some sm -> sm <> [] -> m = sm))
  /\ step (ui w') = step (ui w)
  /\ displayName (ui w') = displayName (ui w)
  /\ storedUser w' = storedUser w
  /\ authUser w' = authUser w
  /\ isSubmitting (ui w') = false.
Proof.
  intros w'. subst w'. unfold handleSaveName. rewrite Hcall. cbn [negb].
  split; [ | repeat split ].
  exists (error_text err fallback_save). split; [reflexivity | split ].
  - apply error_text_nonempty. discriminate.
  - intros sm Hsm Hne. unfold error_text. rewrite Hsm.
    destruct sm; [congruence | reflexivity].
Qed.

Lemma save_failure_keeps_profile_witness :
  let w := with_ui (setDisplayName (lit "Carlos"))
             (initialWorld None None []) in
  let err := {| response_message := None; message := None |} in
  truthy (trim (displayName (ui w))) = true
  /\ step (ui (handleSaveName (inl err) w)) = profile
  /\ error (ui (handleSaveName (inl err) w)) = Some fallback_save.
Proof.
  intros w err.
  assert (Hcall : truthy (trim (displayName (ui w))) = true) by reflexivity.
  destruct (save_failure_keeps_profile w err Hcall) as (_ & Hstep & _).
  split; [exact Hcall | split; [exact Hstep | reflexivity] ].
Defined.

(** X5. A display name, or a workspace name, made of whitespace only is
    blank for the handlers: whatever the call would have answered, the world
    is left exactly as it was (no flag, no error, no step change). *)
Theorem blank_submit_does_nothing (w : World) :
  (forallb is_whitespace (displayName (ui w)) = true ->
   forall outcome, handleSaveName outcome w = w)
  /\ (forallb is_whitespace (workspaceName (ui w)) = true ->
      forall outcome, handleCreateWorkspace outcome w = w).
Proof.
  split; intros H outcome.
  - unfold handleSaveName. rewrite trim_all_whitespace by exact H. reflexivity.
  - unfold handleCreateWorkspace. rewrite trim_all_whitespace by exact H.
    reflexivity.
Qed.

Lemma blank_submit_does_nothing_witness :
  let w := with_ui (setDisplayName [32; 9; 160]%N)
             (initialWorld None None []) in
  forallb is_whitespace (displayName (ui w)) = true
  /\ handleSaveName (inr None) w = w.
Proof.
  intros w.
  assert (H : forallb is_whitespace (displayName (ui w)) = true) by reflexivity.
  split; [exact H | ].
  exact (proj1 (blank_submit_does_nothing w) H (inr None)).
Defined.

(** X6. What a successful save publishes decides the next mount: the
    published identity passes the init effect's condition exactly when the
    typed name does not look like a phone number.  A phone-shaped name is
    saved and the wizard moves on to the form step, but a fresh mount with
    the published identity opens on the profile step again. *)
Theorem saved_name_at_next_mount (w : World) (updatedProfile : option obj)
    (Hcall : truthy (trim (displayName (ui w))) = true) :
  let w' := handleSaveName (inr updatedProfile) w in
  has_real_name (authUser w') = negb (looksLikePhone (Some (displayName (ui w))))
  /\ step (ui w') = form
  /\ forall stored children,
       step (ui (initEffect (initialWorld (authUser w') stored children)))
       = if looksLikePhone (Some (displayName (ui w))) then profile else form.
Proof.
  intros w'.
  destruct (save_name_published w updatedProfile Hcall)
    as (Ha & _ & Hstep & _).
  fold w' in Ha, Hstep.
  assert (H : has_real_name (authUser w')
              = negb (looksLikePhone (Some (displayName (ui w))))).
  { rewrite Ha. unfold has_real_name, user_name.
    rewrite merge_profile_name, looksLikePhone_trimmed, trim_twice, Hcall.
    apply andb_true_r. }
  split; [exact H | split; [exact Hstep | ] ].
  intros stored children. rewrite initial_step_cases, H.
  destruct (looksLikePhone _); reflexivity.
Qed.

Lemma saved_name_at_next_mount_witness :
  let w := with_ui (setDisplayName (lit "11991234567"))
             (initialWorld None None []) in
  let w' := handleSaveName (inr None) w in
  truthy (trim (displayName (ui w))) = true
  /\ step (ui w') = form
  /\ step (ui (initEffect (initialWorld (authUser w') None []))) = profile.
Proof.
  intros w w'.
  assert (Hcall : truthy (trim (displayName (ui w))) = true) by reflexivity.
  destruct (saved_name_at_next_mount w None Hcall) as (_ & Hstep & Hmount).
  split; [exact Hcall | split; [exact Hstep | ] ].
  exact (Hmount None []).
Defined.

Lemma create_failure_frame (w : World) (err : jserror) :
  truthy (trim (workspaceName (ui w))) = true ->
  let w' := handleCreateWorkspace (inl err) w in
  workspaceName (ui w') = workspaceName (ui w)
  /\ workspaceSlug (ui w') = workspaceSlug (ui w)
  /\ step (ui w') = step (ui w)
  /\ createdWorkspace (ui w') = createdWorkspace (ui w).
Proof.
  intros Hcall. unfold handleCreateWorkspace. rewrite Hcall.
  repeat split; reflexivity.
Qed.

(** X7. Retrying works: after any number of failed creation calls, a call
    that succeeds puts the wizard on the success step with that workspace,
    no error left, and the name and slug fields as they were before the
    first attempt. *)
Theorem create_retry_succeeds (w : World) (errs : list jserror)
    (workspace : CreatedWorkspace)
    (Hcall : truthy (trim (workspaceName (ui w))) = true) :
  let attempts := List.map inl errs ++ [inr workspace] in
  let w' := fold_left (fun w0 outcome => handleCreateWorkspace outcome w0)
              attempts w in
  step (ui w') = success
  /\ createdWorkspace (ui w') = Some workspace
  /\ error (ui w') = None
  /\ isSubmitting (ui w') = false
  /\ workspaceName (ui w') = workspaceName (ui w)
  /\ workspaceSlug (ui w') = workspaceSlug (ui w).
Proof.
  intros attempts w'. subst attempts w'. revert w Hcall.
  induction errs as [ | err errs IH ]; intros w Hcall.
  - simpl. unfold handleCreateWorkspace. rewrite Hcall.
    repeat split; reflexivity.
  - cbn [List.map app fold_left].
    destruct (create_failure_frame w err Hcall) as (Hn & Hs & _).
    cbv zeta in Hn, Hs.
    rewrite <- Hn, <- Hs. apply IH. rewrite Hn. exact Hcall.
Qed.

Lemma create_retry_succeeds_witness :
  let w := with_ui (setWorkspaceName (lit "Pelada"))
             (with_ui (setStep form) (initialWorld None None [])) in
  let err := {| response_message := None; message := Some (lit "Network Error") |} in
  let ws := {| id := lit "w1"; name := lit "Pelada";
               slug := lit "pelada"; role := lit "owner" |} in
  let w' := fold_left (fun w0 outcome => handleCreateWorkspace outcome w0)
              (List.map inl [err; err] ++ [inr ws]) w in
  truthy (trim (workspaceName (ui w))) = true
  /\ step (ui w') = success
  /\ createdWorkspace (ui w') = Some ws.
Proof.
  intros w err ws w'.
  assert (Hcall : truthy (trim (workspaceName (ui w))) = true) by reflexivity.
  destruct (create_retry_succeeds w [err; err] ws Hcall) as (Hstep & Hws & _).
  split; [exact Hcall | split; [exact Hstep | exact Hws] ].
Defined.

(** ** What holds in every state the wizard reaches *)

Ltac wizard_cases :=
  cbn [handle];
  unfold handleNameChange, handleSlugChange, handleSaveName,
    handleCreateWorkspace, handleCopyCommand, elapse, initEffect,
    publishUser, setAuthUser, with_ui;
  cbn [ui authUser];
  repeat match goal with
         | |- context [if ?b then _ else _] => destruct b eqn:?
         | |- context [match ?x with inl _ => _ | inr _ => _ end] => destruct x
         | |- context [match ?x with [] => _ | _ :: _ => _ end] => destruct x
         end;
  cbn [ui step displayName workspaceName workspaceSlug slugEdited
       createdWorkspace isSubmitting isCopied isFinishing error
       setStep setDisplayName setWorkspaceName setWorkspaceSlug
       setSlugEdited setCreatedWorkspace setIsSubmitting setIsCopied
       setError now timers body] in *;
  try congruence; auto.

Section ReachableFacts.

Variable toLowerCase : jsstring -> jsstring.
Variable normalizeNFD : jsstring -> jsstring.

Local Abbreviation toSlug' := (toSlug toLowerCase normalizeNFD).
Local Abbreviation handle' := (handle toLowerCase normalizeNFD).
Local Abbreviation run' := (run toLowerCase normalizeNFD).

Lemma run_cons w e es : run' w (e :: es) = run' (handle' w e) es.
Proof. reflexivity. Qed.

(** A property kept by every event holds after any run. *)
Lemma run_invariant (P : World -> Prop) :
  (forall w e, P w -> P (handle' w e)) ->
  forall es w, P w -> P (run' w es).
Proof.
  intros Hstep es. induction es as [ | e es IH ]; intros w Hw; [exact Hw | ].
  rewrite run_cons. apply IH, Hstep, Hw.
Qed.

Lemma handle_slugEdited w e :
  slugEdited (ui (handle' w e)) = slugEdited (ui w) || is_slug_change e.
Proof.
  destruct e; cbn [is_slug_change]; rewrite ?orb_false_r, ?orb_true_r;
    wizard_cases.
Qed.

Lemma run_slugEdited es :
  forall w, slugEdited (ui (run' w es))
            = slugEdited (ui w) || existsb is_slug_change es.
Proof.
  induction es as [ | e es IH ]; intros w; simpl.
  - rewrite orb_false_r. reflexivity.
  - change (fold_left handle' es (handle' w e)) with (run' (handle' w e) es).
    rewrite IH, handle_slugEdited, orb_assoc. reflexivity.
Qed.

Lemma handle_slug_follows w e :
  (slugEdited (ui w) = false ->
   workspaceSlug (ui w) = toSlug' (workspaceName (ui w))) ->
  slugEdited (ui (handle' w e)) = false ->
  workspaceSlug (ui (handle' w e)) = toSlug' (workspaceName (ui (handle' w e))).
Proof.
  intros H. destruct e; try (exact H); revert H; wizard_cases.
Qed.

Lemma handle_leaves_profile w e :
  step (ui w) <> profile -> step (ui (handle' w e)) <> profile.
Proof.
  intros H. destruct e; try (exact H); revert H; wizard_cases.
Qed.

Lemma handle_error_nonempty w e :
  error (ui w) <> Some [] -> error (ui (handle' w e)) <> Some [].
Proof.
  intros H.
  assert (Hs : forall err, Some (error_text err fallback_save) <> Some []).
  { intros err E. injection E as E. revert E.
    apply error_text_nonempty. discriminate. }
  assert (Hc : forall err, Some (error_text err fallback_create) <> Some []).
  { intros err E. injection E as E. revert E.
    apply error_text_nonempty. discriminate. }
  destruct e; try (exact H); revert H; wizard_cases.
Qed.

Lemma remaining_timers_ahead (t dt : N) (ts : list N) :
  Forall (fun d => (t < d <= t + copied_delay)%N) ts ->
  Forall (fun d => (t + dt < d <= t + dt + copied_delay)%N)
    (List.filter (fun d => negb (d <=? t + dt)%N) ts).
Proof.
  induction 1 as [ | d r Hd _ IH ]; simpl; [constructor | ].
  destruct (N.leb_spec d (t + dt)); simpl; [exact IH | ].
  constructor; [lia | exact IH].
Qed.

Lemma none_due_all_remain (t : N) (ts : list N) :
  List.filter (fun d => (d <=? t)%N) ts = [] ->
  List.filter (fun d => negb (d <=? t)%N) ts = ts.
Proof.
  induction ts as [ | d r IH ]; simpl; [reflexivity | ].
  destruct (d <=? t)%N; simpl; [discriminate | ].
  intros H. rewrite IH by exact H. reflexivity.
Qed.

Lemma handle_timers_sound w e : timers_sound w -> timers_sound (handle' w e).
Proof.
  intros [Hall Hup].
  assert (Hframe : is_copy e = false -> (forall dt, e <> Elapse dt) ->
                   timers_sound (handle' w e)).
  { intros Hc He.
    destruct (handle_keeps_clock toLowerCase normalizeNFD w e Hc He)
      as (Hf & Ht & Hn).
    unfold timers_sound. rewrite Hf, Ht, Hn. split; assumption. }
  destruct e as [ | u | v | v | v | o | o | ok | dt ];
    try (apply Hframe; [reflexivity | intros dt'; discriminate]).
  - (* a copy *)
    unfold timers_sound. cbn [handle handleCopyCommand timers now ui]. split.
    + apply Forall_app. split; [exact Hall | ].
      constructor; [unfold copied_delay; lia | constructor].
    + intros _ Hnil. apply app_eq_nil in Hnil as [_ Hnil]. discriminate.
  - (* time passes *)
    unfold timers_sound. cbn [handle elapse timers now ui]. split.
    + apply remaining_timers_ahead, Hall.
    + destruct (List.filter (fun d => (d <=? now w + dt)%N) (timers w))
        as [ | d0 due ] eqn:Edue; [ | discriminate ].
      rewrite (none_due_all_remain _ _ Edue). exact Hup.
Qed.

Lemma toSlug_empty_on (Hr : conforming toLowerCase normalizeNFD) :
  toSlug' [] = [].
Proof.
  rewrite (toSlug_on_latin1 _ _ Hr) by constructor. reflexivity.
Qed.

(** X8. The latch is up exactly when the slug field has been edited
    directly; and until then the slug field is [toSlug] of the name field,
    in every state reached from the first render. *)
Theorem slug_follows_name (runtime : conforming toLowerCase normalizeNFD)
    (user stored : option obj) (children : list nat) (es : list Event) :
  let w := run' (initialWorld user stored children) es in
  slugEdited (ui w) = existsb is_slug_change es
  /\ (slugEdited (ui w) = false ->
      workspaceSlug (ui w) = toSlug' (workspaceName (ui w))).
Proof.
  intros w. split.
  - subst w. rewrite run_slugEdited. reflexivity.
  - subst w.
    apply (run_invariant
             (fun w => slugEdited (ui w) = false ->
                       workspaceSlug (ui w) = toSlug' (workspaceName (ui w)))).
    + intros w0 e. apply handle_slug_follows.
    + intros _. symmetry. apply toSlug_empty_on, runtime.
Qed.

(** X10. No event brings the profile step back once the wizard has left
    it.  The success step is not final, though: when the auth context
    publishes a user that has a real name, the init effect runs again and
    sets the form step, whatever the step was. *)
Theorem profile_step_never_returns (w : World) (es : list Event)
    (Hleft : step (ui w) <> profile) :
  step (ui (run' w es)) <> profile
  /\ (forall u, has_real_name u = true ->
                step (ui (handle' (run' w es) (UserChanged u))) = form).
Proof.
  split.
  - apply (run_invariant (fun w => step (ui w) <> profile)).
    + apply handle_leaves_profile.
    + exact Hleft.
  - intros u Hu. cbn [handle]. unfold initEffect, setAuthUser.
    cbn [authUser]. rewrite Hu. reflexivity.
Qed.

(** X11. The error cell never holds the empty string, in any state reached
    from the first render: it is [null] or a text, so an error that is set
    is always rendered. *)
Theorem error_never_empty (user stored : option obj)
    (children : list nat) (es : list Event) :
  error (ui (run' (initialWorld user stored children) es)) <> Some [].
Proof.
  apply (run_invariant (fun w => error (ui w) <> Some [])).
  - apply handle_error_nonempty.
  - discriminate.
Qed.

(** X12. The acknowledgment cannot stay up for good.  In every state
    reached from the first render each pending reset lies ahead, at most
    2500 ms ahead, and one is pending whenever the flag is up; so after any
    further events without a copy over which 2500 ms pass, the flag is
    down. *)
Theorem copied_flag_never_stuck (user stored : option obj)
    (children : list nat) (es more : list Event) :
  let w := run' (initialWorld user stored children) es in
  Forall (fun d => (now w < d <= now w + 2500)%N) (timers w)
  /\ (isCopied (ui w) = true -> timers w <> [])
  /\ (forallb (fun e => negb (is_copy e)) more = true ->
      (2500 <= elapsed more)%N ->
      isCopied (ui (run' w more)) = false).
Proof.
  intros w.
  assert (Hs : timers_sound w).
  { subst w. apply (run_invariant timers_sound).
    - apply handle_timers_sound.
    - split; [constructor | discriminate]. }
  destruct Hs as [Hall Hup].
  split; [exact Hall | split; [exact Hup | ] ].
  intros Hmore Ht. apply flag_down_after; [exact Hmore | ].
  destruct (isCopied (ui w)) eqn:Ec; [right | left; reflexivity].
  specialize (Hup eq_refl).
  destruct (timers w) as [ | d r ]; [congruence | ].
  exists d. split; [left; reflexivity | ].
  inversion Hall as [ | ? ? Hd _ ]. unfold copied_delay in Hd. lia.
Qed.

End ReachableFacts.

Lemma slug_follows_name_witness :
  let es := [ NameChange (lit "Pelada da Sexta!"); CopyCommand true ] in
  let w := run Latin1.toLowerCase Latin1.normalizeNFD
             (initialWorld None None []) es in
  conforming Latin1.toLowerCase Latin1.normalizeNFD
  /\ slugEdited (ui w) = false
  /\ workspaceSlug (ui w)
     = toSlug Latin1.toLowerCase Latin1.normalizeNFD (workspaceName (ui w)).
Proof.
  intros es w.
  assert (Hr : conforming Latin1.toLowerCase Latin1.normalizeNFD)
    by (split; intros s _; reflexivity).
  destruct (slug_follows_name Latin1.toLowerCase Latin1.normalizeNFD Hr
              None None [] es) as (Hl & Hf).
  split; [exact Hr | split; [exact Hl | exact (Hf Hl)] ].
Defined.

Lemma profile_step_never_returns_witness :
  let w := with_ui (setStep success) (initialWorld None None []) in
  let es := [ UserChanged None; SaveName (inl {| response_message := None;
                                                 message := None |}) ] in
  step (ui w) <> profile
  /\ step (ui (run Latin1.toLowerCase Latin1.normalizeNFD w es)) <> profile.
Proof.
  intros w es.
  assert (Hleft : step (ui w) <> profile) by discriminate.
  split; [exact Hleft | ].
  exact (proj1 (profile_step_never_returns Latin1.toLowerCase
                  Latin1.normalizeNFD w es Hleft)).
Defined.

(** ** Length and emptiness of the slug *)

Lemma unit_contribution_short c :
  Latin1.latin1 c -> length (unit_contribution c) <= 1.
Proof.
  intros Hc. apply Nat.leb_le.
  exact (all_latin1 (fun c => length (unit_contribution c) <=? 1) eq_refl c Hc).
Qed.

Lemma stage_length s :
  Forall Latin1.latin1 s ->
  length (List.flat_map unit_contribution s) <= length s.
Proof.
  induction 1 as [ | c s Hc _ IH ]; simpl; [lia | ].
  rewrite length_app. pose proof (unit_contribution_short c Hc). lia.
Qed.

Lemma trimStart_length s : length (trimStart s) <= length s.
Proof.
  induction s as [ | c s IH ]; simpl; [lia | ].
  destruct (is_whitespace c); simpl; lia.
Qed.

Lemma trim_length s : length (trim s) <= length s.
Proof.
  unfold trim, trimEnd. rewrite length_rev.
  pose proof (trimStart_length (rev (trimStart s))) as H1.
  rewrite length_rev in H1. pose proof (trimStart_length s). lia.
Qed.

Lemma replace_runs_length cls by_ s :
  length by_ <= 1 ->
  forall in_run, length (replace_runs cls by_ in_run s) <= length s.
Proof.
  intros Hby. induction s as [ | c s IH ]; intros in_run; simpl; [lia | ].
  destruct (cls c).
  - rewrite length_app. specialize (IH true).
    destruct in_run; simpl; lia.
  - simpl. specialize (IH false). lia.
Qed.

Lemma In_trimStart c s :
  In c s -> is_whitespace c = false -> In c (trimStart s).
Proof.
  intros Hin Hc. induction s as [ | d s IH ]; simpl; [destruct Hin | ].
  destruct (is_whitespace d) eqn:Ed; [ | exact Hin ].
  destruct Hin as [-> | Hin]; [congruence | apply IH, Hin].
Qed.

Lemma In_trim c s : In c s -> is_whitespace c = false -> In c (trim s).
Proof.
  intros Hin Hc. unfold trim, trimEnd. apply in_rev.
  rewrite rev_involutive. apply In_trimStart; [ | exact Hc ].
  apply in_rev. rewrite rev_involutive.
  apply In_trimStart; assumption.
Qed.

Lemma In_replace_runs cls by_ c s :
  In c s -> cls c = false ->
  forall in_run, In c (replace_runs cls by_ in_run s).
Proof.
  intros Hin Hc. induction s as [ | d s IH ]; intros in_run; simpl;
    [destruct Hin | ].
  destruct (cls d) eqn:Ed.
  - apply in_or_app. right. destruct Hin as [-> | Hin]; [congruence | ].
    apply IH, Hin.
  - destruct Hin as [-> | Hin]; [left; reflexivity | right; apply IH, Hin].
Qed.

(** An ASCII letter, digit or hyphen leaves its lowercase, a slug unit. *)
Lemma visible_contribution c :
  (c < 128)%N -> is_ascii_alnum c || (c =? 45)%N = true ->
  unit_contribution c = [Latin1.lower1 c]
  /\ is_whitespace (Latin1.lower1 c) = false.
Proof.
  intros Hc Hv.
  assert (Hl : Latin1.latin1 c) by (unfold Latin1.latin1; lia).
  pose proof (all_latin1
                (fun c => implb (is_ascii_alnum c || (c =? 45)%N)
                            (bool_decide (unit_contribution c = [Latin1.lower1 c])
                             && negb (is_whitespace (Latin1.lower1 c))))
                eq_refl c Hl) as H.
  cbv beta in H. rewrite Hv in H. simpl in H.
  apply andb_true_iff in H as [H1 H2].
  split; [exact (bool_decide_eq_true_1 _ H1) | apply negb_true_iff, H2].
Qed.

(** Any other ASCII character leaves nothing, or itself when whitespace. *)
Lemma invisible_contribution c :
  (c < 128)%N -> is_ascii_alnum c || (c =? 45)%N = false ->
  forallb is_whitespace (unit_contribution c) = true.
Proof.
  intros Hc Hv.
  assert (Hl : Latin1.latin1 c) by (unfold Latin1.latin1; lia).
  pose proof (all_latin1
                (fun c => implb ((c <? 128)%N
                                 && negb (is_ascii_alnum c || (c =? 45)%N))
                            (forallb is_whitespace (unit_contribution c)))
                eq_refl c Hl) as H.
  cbv beta in H. rewrite Hv, (proj2 (N.ltb_lt _ _) Hc) in H. exact H.
Qed.

Section SlugSize.

Variable toLowerCase : jsstring -> jsstring.
Variable normalizeNFD : jsstring -> jsstring.
Hypothesis runtime : conforming toLowerCase normalizeNFD.

Local Abbreviation toSlug' := (toSlug toLowerCase normalizeNFD).

(** X13. On Latin-1 text the slug is never longer than the name it is
    derived from; and a name already made of lowercase letters, digits and
    hyphens gives a slug of exactly its length.  So the slug derived from a
    name of up to 60 characters has up to 60, not the 40 that the slug input
    allows to type. *)
Theorem toSlug_length (value : jsstring) (Hlatin : Forall Latin1.latin1 value) :
  length (toSlug' value) <= length value
  /\ (forallb slug_char value = true -> length (toSlug' value) = length value).
Proof.
  split.
  - rewrite (toSlug_on_latin1 _ _ runtime) by exact Hlatin.
    unfold toSlug. rewrite latin1_stage.
    pose proof (replace_runs_length is_whitespace (lit "-")
                  (trim (List.flat_map unit_contribution value))
                  (Nat.le_refl 1) false).
    pose proof (trim_length (List.flat_map unit_contribution value)).
    pose proof (stage_length value Hlatin). lia.
  - intros H. rewrite (toSlug_fixes_slugs _ _ runtime) by exact H. reflexivity.
Qed.

(** X14. For an ASCII name the derived slug is empty exactly when the name
    has no letter, no digit and no hyphen; the request built from such a
    name, slug field untouched, then carries no slug at all. *)
Theorem toSlug_empty (value : jsstring)
    (Hascii : Forall (fun c => (c < 128)%N) value) :
  (toSlug' value = []
   <-> forallb (fun c => negb (is_ascii_alnum c || (c =? 45)%N)) value = true)
  /\ (forallb (fun c => negb (is_ascii_alnum c || (c =? 45)%N)) value = true ->
      forall w, slugEdited (ui w) = false ->
        snd (workspacePayload
               (ui (handle toLowerCase normalizeNFD w (NameChange value))))
        = None).
Proof.
  assert (Hlatin : Forall Latin1.latin1 value).
  { eapply List.Forall_impl; [ | exact Hascii ].
    intros c Hc. unfold Latin1.latin1. cbv beta in Hc. lia. }
  assert (Hslug : toSlug' value
                  = replace_runs is_whitespace (lit "-") false
                      (trim (List.flat_map unit_contribution value))).
  { rewrite (toSlug_on_latin1 _ _ runtime) by exact Hlatin.
    unfold toSlug. rewrite latin1_stage. reflexivity. }
  assert (Hempty : forallb (fun c => negb (is_ascii_alnum c || (c =? 45)%N))
                     value = true -> toSlug' value = []).
  { intros H. rewrite Hslug.
    rewrite trim_all_whitespace; [reflexivity | ].
    clear Hslug Hlatin.
    induction Hascii as [ | c s Hc _ IH ]; [reflexivity | ].
    simpl in H. apply andb_true_iff in H as [Hv Hs].
    apply negb_true_iff in Hv. simpl.
    rewrite forallb_app, (invisible_contribution c Hc Hv), IH by exact Hs.
    reflexivity. }
  split; [split; [ | exact Hempty ] | ].
  - intros H0. apply forallb_forall. intros c Hin.
    apply negb_true_iff.
    destruct (is_ascii_alnum c || (c =? 45)%N) eqn:Hv; [exfalso | reflexivity].
    rewrite List.Forall_forall in Hascii.
    destruct (visible_contribution c (Hascii c Hin) Hv) as [Hu Hw].
    assert (Hst : In (Latin1.lower1 c) (List.flat_map unit_contribution value)).
    { apply in_flat_map. exists c. split; [exact Hin | ].
      rewrite Hu. left. reflexivity. }
    pose proof (In_trim _ _ Hst Hw) as Htr.
    pose proof (In_replace_runs is_whitespace (lit "-") _ _ Htr Hw false) as Hr.
    rewrite <- Hslug, H0 in Hr. destruct Hr.
  - intros H w Hw. cbn [handle]. unfold handleNameChange. rewrite Hw.
    unfold workspacePayload, with_ui. cbn [ui workspaceSlug setWorkspaceSlug snd].
    rewrite (Hempty H). reflexivity.
Qed.

End SlugSize.

Lemma toSlug_length_witness :
  let value := lit "S" ++ 227%N :: lit "o Paulo, FC!" in
  conforming Latin1.toLowerCase Latin1.normalizeNFD
  /\ Forall Latin1.latin1 value
  /\ length (toSlug Latin1.toLowerCase Latin1.normalizeNFD value) <= length value.
Proof.
  intros value.
  assert (Hr : conforming Latin1.toLowerCase Latin1.normalizeNFD)
    by (split; intros s _; reflexivity).
  assert (Hl : Forall Latin1.latin1 value)
    by (apply forallb_latin1; reflexivity).
  split; [exact Hr | split; [exact Hl | ] ].
  exact (proj1 (toSlug_length Latin1.toLowerCase Latin1.normalizeNFD Hr value Hl)).
Defined.

Lemma toSlug_empty_witness :
  let value := lit " ?!  ... " in
  conforming Latin1.toLowerCase Latin1.normalizeNFD
  /\ Forall (fun c => (c < 128)%N) value
  /\ toSlug Latin1.toLowerCase Latin1.normalizeNFD value = [].
Proof.
  intros value.
  assert (Hr : conforming Latin1.toLowerCase Latin1.normalizeNFD)
    by (split; intros s _; reflexivity).
  assert (Ha : Forall (fun c => (c < 128)%N) value).
  { apply List.Forall_forall. intros c Hc.
    assert (H : forallb (fun c => (c <? 128)%N) value = true) by reflexivity.
    rewrite forallb_forall in H. apply N.ltb_lt, H, Hc. }
  split; [exact Hr | split; [exact Ha | ] ].
  apply (proj1 (toSlug_empty Latin1.toLowerCase Latin1.normalizeNFD Hr value Ha)).
  reflexivity.
Defined.

(** ** What is sent to the server *)

Section Payload.

Variable toLowerCase : jsstring -> jsstring.
Variable normalizeNFD : jsstring -> jsstring.

(** X15. The request of [handleCreateWorkspace] is normalised: in every
    state reached from the first render, the name it carries neither begins
    nor ends with whitespace and trimming it again changes nothing; the slug
    it carries, when it carries one, is not empty and is made of lowercase
    ASCII letters, digits and hyphens; and when the handler's guard lets the
    call through the name is not empty. *)
Theorem payload_normalised (user stored : option obj)
    (children : list nat) (es : list Event) :
  let w := run toLowerCase normalizeNFD (initialWorld user stored children) es in
  let sent_name := fst (workspacePayload (ui w)) in
  let sent_slug := snd (workspacePayload (ui w)) in
  trim sent_name = sent_name
  /\ (forall c r, sent_name = c :: r -> is_whitespace c = false)
  /\ (forall r c, sent_name = r ++ [c] -> is_whitespace c = false)
  /\ (truthy (trim (workspaceName (ui w))) = true -> sent_name <> [])
  /\ (forall sl, sent_slug = Some sl ->
                 sl <> [] /\ forallb slug_char sl = true).
Proof.
  intros w sent_name sent_slug. subst sent_name sent_slug.
  unfold workspacePayload. cbn [fst snd].
  split; [apply trim_twice | ].
  split; [intros c r; apply trim_head | ].
  split; [intros r c; apply trim_last | ].
  split.
  - intros H E. rewrite E in H. discriminate.
  - intros sl Hsl.
    assert (Hchars : forallb slug_char (workspaceSlug (ui w)) = true).
    { subst w. apply run_keeps_slug_chars. reflexivity. }
    destruct (workspaceSlug (ui w)) as [ | c r ]; [discriminate | ].
    injection Hsl as <-. split; [discriminate | exact Hchars].
Qed.

End Payload.

(** ** A response without a body *)



(** ** Leaving the wizard *)

Section FinishFacts.

Variable toLowerCase : jsstring -> jsstring.
Hypothesis lower_latin1 :
  forall s, Forall Latin1.latin1 s -> toLowerCase s = Latin1.toLowerCase s.

(** X17. Where [handleFinish] goes.  When the refresh fails it is the user
    dashboard, whatever the role.  When it succeeds, and the role is Latin-1
    text, it is the admin dashboard exactly when the role, compared without
    regard to case, is "admin" or "owner", and the user dashboard otherwise;
    an identity without a role goes to the user dashboard. *)
Theorem finishRoute_cases (user : option obj)
    (Hrole : Forall Latin1.latin1 (user_role user)) :
  finishRoute toLowerCase user false = lit "/user/dashboard"
  /\ (finishRoute toLowerCase user true = lit "/admin/dashboard"
      <-> Latin1.toLowerCase (user_role user) = lit "admin"
          \/ Latin1.toLowerCase (user_role user) = lit "owner")
  /\ (finishRoute toLowerCase user true = lit "/admin/dashboard"
      \/ finishRoute toLowerCase user true = lit "/user/dashboard")
  /\ (user_role user = [] ->
      finishRoute toLowerCase user true = lit "/user/dashboard").
Proof.
  unfold finishRoute. cbv zeta. rewrite (lower_latin1 _ Hrole).
  split; [reflexivity | ].
  assert (Hcases :
            (if bool_decide (Latin1.toLowerCase (user_role user) = lit "admin")
                || bool_decide (Latin1.toLowerCase (user_role user) = lit "owner")
             then lit "/admin/dashboard" else lit "/user/dashboard")
            = lit "/admin/dashboard"
            <-> Latin1.toLowerCase (user_role user) = lit "admin"
                \/ Latin1.toLowerCase (user_role user) = lit "owner").
  { destruct (bool_decide _ || bool_decide _) eqn:E.
    - apply orb_true_iff in E. split; [intros _ | reflexivity].
      destruct E as [E | E]; apply bool_decide_eq_true_1 in E; auto.
    - apply orb_false_iff in E as [E1 E2].
      apply bool_decide_eq_false_1 in E1. apply bool_decide_eq_false_1 in E2.
      split; [discriminate | tauto]. }
  split; [exact Hcases | split ].
  - destruct (bool_decide _ || bool_decide _); [left | right]; reflexivity.
  - intros ->. reflexivity.
Qed.

End FinishFacts.

Lemma finishRoute_cases_witness :
  let user : option obj := Some {[ "role" := JStr (lit "Owner") ]} in
  (forall s, Forall Latin1.latin1 s -> Latin1.toLowerCase s = Latin1.toLowerCase s)
  /\ Forall Latin1.latin1 (user_role user)
  /\ finishRoute Latin1.toLowerCase user true = lit "/admin/dashboard"
  /\ finishRoute Latin1.toLowerCase user false = lit "/user/dashboard".
Proof.
  intros user.
  assert (Hl : forall s, Forall Latin1.latin1 s ->
                         Latin1.toLowerCase s = Latin1.toLowerCase s)
    by (intros s _; reflexivity).
  assert (Hu : user_role user = lit "Owner").
  { unfold user_role, user. rewrite lookup_singleton_eq. reflexivity. }
  assert (Hr : Forall Latin1.latin1 (user_role user)).
  { rewrite Hu. apply forallb_latin1. reflexivity. }
  destruct (finishRoute_cases Latin1.toLowerCase Hl user Hr)
    as (Hfail & Hiff & _).
  split; [exact Hl | split; [exact Hr | split; [ | exact Hfail] ] ].
  apply Hiff. right. rewrite Hu. reflexivity.
Defined.
